(** * Verification of the toggle block engine of obsidian-toggle

    Shallow embedding of [src/editor_extension.ts] (block scanner,
    difference-array depth pass, [findMatchingEndLine], the scoped heading
    fold of [notionFoldService], the decoration builder [buildDecorations],
    the auto-close keymap and [hideNativeFoldGutter], and the fold service of
    the file's first version), of both versions of [src/togglePlugin.ts]
    (the [foldState] field, the widgets and their builders) and of the
    insert commands of [src/main.ts].

    A document is the list of its line texts, as CodeMirror's [Text] splits
    it; line numbers start at 1 and offsets count characters, a line break
    being one character.  Texts are strings of 8-bit code units, so
    JavaScript's whitespace class is taken on the code units below 256. *)

From Stdlib Require Import String Ascii List Arith Lia ZArith Bool Sorted.
Import ListNotations.
Open Scope string_scope.
Open Scope nat_scope.

(** ** Strings *)

(** JavaScript [WhiteSpace] and [LineTerminator] code units below 256:
    TAB, LF, VT, FF, CR, SPACE, NBSP.  Used by [trimStart] and by [\s]. *)
Definition is_js_space (c : ascii) : bool :=
  match nat_of_ascii c with
  | 9 | 10 | 11 | 12 | 13 | 32 | 160 => true
  | _ => false
  end.

(** [.] in a regular expression excludes LF and CR. *)
Definition is_line_terminator (c : ascii) : bool :=
  match nat_of_ascii c with
  | 10 | 13 => true
  | _ => false
  end.

(** [String.prototype.trimStart]. *)
Fixpoint trimStart (s : string) : string :=
  match s with
  | EmptyString => EmptyString
  | String c s' => if is_js_space c then trimStart s' else s
  end.

(** [s.startsWith(p)]. *)
Definition startsWith (s p : string) : bool := String.prefix p s.

(** [s.slice(n)] for [n >= 0]. *)
Fixpoint slice (s : string) (n : nat) : string :=
  match n, s with
  | 0, _ => s
  | S n', String _ s' => slice s' n'
  | S _, EmptyString => EmptyString
  end.

Definition START_TAG : string := "|> ".
Definition END_TAG : string := "<|".

(** ** Documents and lines *)

Definition Doc := list string.

(** [doc.line(i)]: number, start offset [from], end offset [to], text. *)
Record Line := mkLine { number : nat; from : nat; to : nat; text : string }.

Fixpoint mk_lines (n off : nat) (ts : list string) : list Line :=
  match ts with
  | [] => []
  | t :: ts' =>
      mkLine n off (off + String.length t) t
        :: mk_lines (S n) (off + String.length t + 1) ts'
  end.

Definition doc_lines (doc : Doc) : list Line := mk_lines 1 0 doc.

Definition default_line : Line := mkLine 0 0 0 "".

(** [doc.line(i)] for [1 <= i <= doc.lines]. *)
Definition doc_line (doc : Doc) (i : nat) : Line :=
  nth (i - 1) (doc_lines doc) default_line.

(** ** Block scanner (buildDecorations, lines 673-686) *)

Record Range := mkRange { start : nat; end_ : nat }.

(** One pass over the lines [i, i+1, ...]: [openStack] has its top first,
    [validRanges] is in push order.  Markers are tested on the raw text. *)
Fixpoint scan_lines (i : nat) (ts : list string) (openStack : list nat)
    (validRanges : list Range) : list nat * list Range :=
  match ts with
  | [] => (openStack, validRanges)
  | lineText :: ts' =>
      if startsWith lineText START_TAG then
        scan_lines (S i) ts' (i :: openStack) validRanges
      else if startsWith lineText END_TAG then
        match openStack with
        | s :: rest => scan_lines (S i) ts' rest (validRanges ++ [mkRange s i])
        | [] => scan_lines (S i) ts' openStack validRanges
        end
      else scan_lines (S i) ts' openStack validRanges
  end.

Definition scan (doc : Doc) : list Range := snd (scan_lines 1 doc [] []).

(** ** Difference array and depth (lines 688-702) *)

(** A store into an [Int32Array] element: ToInt32 of the value. *)
Definition wrap32 (z : Z) : Z := ((z + 2 ^ 31) mod 2 ^ 32 - 2 ^ 31)%Z.

(** [a[k] = f(a[k])] on a typed array: out of range stores are ignored. *)
Fixpoint upd (a : list Z) (k : nat) (f : Z -> Z) : list Z :=
  match a, k with
  | [], _ => []
  | x :: a', 0 => f x :: a'
  | x :: a', S k' => x :: upd a' k' f
  end.

Definition diff_step (diff : list Z) (range : Range) : list Z :=
  if Nat.leb (start range) (end_ range) then
    upd (upd diff (start range) (fun x => wrap32 (x + 1)))
        (end_ range + 1) (fun x => wrap32 (x - 1))
  else diff.

Definition diff_of (lineCount : nat) (validRanges : list Range) : list Z :=
  fold_left diff_step validRanges (repeat 0%Z (lineCount + 2)).

(** [currentLevel += diff[i]] for [i = 1 .. lineCount]. *)
Fixpoint levels (diff : list Z) (i cnt : nat) (currentLevel : Z) : list Z :=
  match cnt with
  | 0 => []
  | S c =>
      let cur := (currentLevel + nth i diff 0)%Z in
      cur :: levels diff (S i) c cur
  end.

(** [depthByLine]: the element [i-1] is the level of line [i]. *)
Definition depthByLine (doc : Doc) : list Z :=
  levels (diff_of (length doc) (scan doc)) 1 (length doc) 0.

Definition well_nested (r1 r2 : Range) : Prop :=
  (end_ r1 < start r2 \/ end_ r2 < start r1) \/
  (start r1 < start r2 /\ end_ r2 < end_ r1) \/
  (start r2 < start r1 /\ end_ r1 < end_ r2).

(** ** [findMatchingEndLine] (lines 537-551) *)

(** The loop from line [i] on with the counter [stack]; [None] stands for
    the result [-1]. *)
Fixpoint fme_loop (i : nat) (ts : list string) (stack : nat) : option nat :=
  match ts with
  | [] => None
  | t :: ts' =>
      let lineText := trimStart t in
      if startsWith lineText START_TAG then fme_loop (S i) ts' (S stack)
      else if startsWith lineText END_TAG then
        if Nat.eqb (stack - 1) 0 then Some i else fme_loop (S i) ts' (stack - 1)
      else fme_loop (S i) ts' stack
  end.

Definition findMatchingEndLine (doc : Doc) (startLineNo : nat) : option nat :=
  fme_loop (S startLineNo) (skipn startLineNo doc) 1.

(** ** Regular expressions of the builder *)

Fixpoint span_ws (s : string) : nat * string :=
  match s with
  | String c s' => if is_js_space c then let (n, r) := span_ws s' in (S n, r) else (0, s)
  | EmptyString => (0, s)
  end.

Fixpoint span_hash (s : string) : nat * string :=
  match s with
  | String c s' =>
      if Ascii.eqb c "#"%char then let (n, r) := span_hash s' in (S n, r) else (0, s)
  | EmptyString => (0, s)
  end.

(** [s.match(/^\s*(#{1,6})\s/)]: [Some (level, length of match[0])]; the
    match index is 0.  Whitespace cannot match [#], so the only candidate
    is the maximal run of [#] after the leading whitespace. *)
Definition headerMatch (s : string) : option (nat * nat) :=
  let (w, r1) := span_ws s in
  let (h, r2) := span_hash r1 in
  if (1 <=? h) && (h <=? 6) then
    match r2 with
    | String c _ => if is_js_space c then Some (h, w + h + 1) else None
    | EmptyString => None
    end
  else None.

Fixpoint all_ws (s : string) : bool :=
  match s with
  | EmptyString => true
  | String c s' => is_js_space c && all_ws s'
  end.

(** [/.*>\s*$/] on the rest of the line: some [>] preceded by no line
    terminator and followed by whitespace only. *)
Fixpoint dot_gt_ws_end (s : string) : bool :=
  match s with
  | EmptyString => false
  | String c s' =>
      (Ascii.eqb c ">"%char && all_ws s') ||
      (negb (is_line_terminator c) && dot_gt_ws_end s')
  end.

(** [/^(```|~~~).*>\s*$/.test(trimmedText)]. *)
Definition isCodeBlockToggle (trimmedText : string) : bool :=
  (startsWith trimmedText "```" || startsWith trimmedText "~~~") &&
  dot_gt_ws_end (slice trimmedText 3).

(** The first line [k > i] whose trimmed text starts with [endToken]. *)
Fixpoint find_fence_end (endToken : string) (k : nat) (ts : list string) : option nat :=
  match ts with
  | [] => None
  | t :: ts' => if startsWith (trimStart t) endToken then Some k else find_fence_end endToken (S k) ts'
  end.

(** ** Decorations *)

Inductive Widget :=
| ToggleWidget (isFolded : bool) (foldStart foldEnd : nat) (isHeader : bool)
| CopyWidget (startLineNo endLineNo : nat)
| EndTagWidget (pos : nat) (indentPx : nat) (isError : bool)
| HeaderHashWidget.

Inductive Decoration :=
| DecoLine (cls : string)
| DecoReplace (widget : Widget) (inclusive : bool)
| DecoWidget (widget : Widget) (side : Z).

Module DecoSpec.
Record t := mk { from : nat; to : nat; deco : Decoration }.
End DecoSpec.

(** A selection range [(from, to)] with [from <= to]. *)
Definition SelRange := (nat * nat)%type.

(** Some selection range [r] has [r.to >= a && r.from <= b]. *)
Definition touches (selection : list SelRange) (a b : nat) : bool :=
  existsb (fun r => (a <=? snd r) && (fst r <=? b)) selection.

(** [ranges.between(foldStart, foldEnd, ...)] reports an exact match:
    folded ranges are given as [(from, to)] pairs. *)
Definition isFoldedRange (folded : list (nat * nat)) (foldStart foldEnd : nat) : bool :=
  existsb (fun r => (fst r =? foldStart) && (snd r =? foldEnd)) folded.

(** The decimal text of a level between 0 and 9. *)
Definition digit (n : nat) : string := String (ascii_of_nat (48 + n)) EmptyString.

Definition indentLen (text : string) : nat := String.length text - String.length (trimStart text).

(** ** [buildDecorations] (lines 658-910) *)

Section Builder.

Variable doc : Doc.
Variable selection : list SelRange.
Variable folded : list (nat * nat).

(** The hidden hash marks of a header-titled toggle (lines 725-747). *)
Definition header_hash_decos (line : Line) : list DecoSpec.t :=
  let trimmedText := trimStart (text line) in
  if startsWith trimmedText START_TAG then
    match headerMatch (slice trimmedText (String.length START_TAG)) with
    | Some (_, mlen) =>
        if touches selection (from line) (to line) then []
        else
          let hashStart := from line + indentLen (text line) + String.length START_TAG + 0 in
          let hashEnd := hashStart + mlen in
          if hashEnd <=? to line then
            [DecoSpec.mk hashStart hashEnd (DecoReplace HeaderHashWidget true)]
          else []
    | None => []
    end
  else [].

(** The class list of the line decoration (lines 710-754). *)
Definition bg_classes (line : Line) (currentLevel : Z) : string :=
  let trimmedText := trimStart (text line) in
  let safeLevel := Z.to_nat (Z.min currentLevel 8) in
  let c0 := "toggle-bg toggle-bg-level-" ++ digit safeLevel in
  let c1 :=
    if startsWith trimmedText START_TAG then
      let c := c0 ++ " toggle-round-top" in
      match headerMatch (slice trimmedText (String.length START_TAG)) with
      | Some (level, _) =>
          c ++ " cm-header cm-header-" ++ digit level ++
            " HyperMD-header HyperMD-header-" ++ digit level
      | None => c
      end
    else c0 in
  if startsWith trimmedText END_TAG then c1 ++ " toggle-round-bot" else c1.

(** Background marking (lines 709-763). *)
Definition background_decos (line : Line) (currentLevel : Z) : list DecoSpec.t :=
  if (0 <? currentLevel)%Z then
    (header_hash_decos line ++
      [DecoSpec.mk (from line) (from line) (DecoLine (bg_classes line currentLevel))])%list
  else [].

(** Code block toggle triangle (lines 769-801). *)
Definition codeblock_decos (line : Line) (inCodeBlock : bool) : list DecoSpec.t :=
  let trimmedText := trimStart (text line) in
  if negb inCodeBlock && isCodeBlockToggle trimmedText then
    let rangeFrom := from line + indentLen (text line) in
    let endToken := if startsWith trimmedText "```" then "```" else "~~~" in
    match find_fence_end endToken (S (number line)) (skipn (number line) doc) with
    | Some codeBlockEndLine =>
        let foldStart := to line in
        let foldEnd := to (doc_line doc codeBlockEndLine) in
        [DecoSpec.mk rangeFrom rangeFrom
           (DecoWidget (ToggleWidget (isFoldedRange folded foldStart foldEnd)
                          foldStart foldEnd false) (-1))]
    | None => []
    end
  else [].

(** Start widget (lines 810-848), for a line whose trimmed text starts
    with [START_TAG]. *)
Definition start_decos (line : Line) : list DecoSpec.t :=
  let trimmedText := trimStart (text line) in
  let rangeFrom := from line + indentLen (text line) in
  let rangeTo := rangeFrom + String.length START_TAG in
  let isHeader := match headerMatch (slice trimmedText (String.length START_TAG)) with
                  | Some _ => true | None => false end in
  if touches selection rangeFrom rangeTo then []
  else
    match findMatchingEndLine doc (number line) with
    | Some endLineNo =>
        let foldStart := to line in
        let foldEnd := to (doc_line doc endLineNo) in
        [DecoSpec.mk rangeFrom rangeTo
           (DecoReplace (ToggleWidget (isFoldedRange folded foldStart foldEnd)
                           foldStart foldEnd isHeader) true)]
    | None => []
    end.

(** End widget (lines 851-879), for a line whose trimmed text starts with
    [END_TAG]: the new [runningStack] and the decorations. *)
Definition end_decos (line : Line) (runningStack : nat) : nat * list DecoSpec.t :=
  let rangeFrom := from line + indentLen (text line) in
  let rangeTo := rangeFrom + String.length END_TAG in
  let isOrphan := Nat.eqb runningStack 0 in
  let runningStack' := if isOrphan then runningStack else runningStack - 1 in
  let isSelected := touches selection rangeFrom rangeTo in
  (runningStack',
   if negb isSelected && negb isOrphan then
     [DecoSpec.mk rangeFrom rangeTo (DecoReplace (EndTagWidget rangeFrom 0 false) true)]
   else []).

(** Copy widget (lines 882-895). *)
Definition copy_decos (line : Line) : list DecoSpec.t :=
  match findMatchingEndLine doc (number line) with
  | Some endLineNo =>
      [DecoSpec.mk (to line) (to line) (DecoWidget (CopyWidget (number line) endLineNo) 1)]
  | None => []
  end.

(** The body of the loop for one line, once [currentLevel] is updated:
    the new [runningStack], the new [inCodeBlock] and the decorations it
    pushes, in push order. *)
Definition build_line (currentLevel : Z) (runningStack : nat) (inCodeBlock : bool)
    (line : Line) : nat * bool * list DecoSpec.t :=
  let trimmedText := trimStart (text line) in
  let bg := background_decos line currentLevel in
  if startsWith trimmedText "```" || startsWith trimmedText "~~~" then
    (runningStack, negb inCodeBlock, (bg ++ codeblock_decos line inCodeBlock)%list)
  else if inCodeBlock then (runningStack, inCodeBlock, bg)
  else
    let isStart := startsWith trimmedText START_TAG in
    let rs1 := if isStart then S runningStack else runningStack in
    let ds1 := if isStart then start_decos line else [] in
    let '(rs2, ds2) :=
      if startsWith trimmedText END_TAG then end_decos line rs1 else (rs1, []) in
    let ds3 := if isStart then copy_decos line else [] in
    (rs2, inCodeBlock, (bg ++ ds1 ++ ds2 ++ ds3)%list).

Record BuildState := mkState {
  currentLevel : Z; runningStack : nat; inCodeBlock : bool; decos : list DecoSpec.t }.

Definition build_step (diff : list Z) (st : BuildState) (line : Line) : BuildState :=
  let lvl := (currentLevel st + nth (number line) diff 0)%Z in
  let '(rs, icb, ds) := build_line lvl (runningStack st) (inCodeBlock st) line in
  mkState lvl rs icb (decos st ++ ds)%list.

(** [decos.sort((a, b) => a.from - b.from)]: [Array.prototype.sort] is
    stable, so equal [from] keep their push order; a stable insertion sort
    gives that unique result. *)
Fixpoint insert_by_from (d : DecoSpec.t) (l : list DecoSpec.t) : list DecoSpec.t :=
  match l with
  | [] => [d]
  | y :: l' => if DecoSpec.from d <=? DecoSpec.from y then d :: l else y :: insert_by_from d l'
  end.

Fixpoint sort_by_from (l : list DecoSpec.t) : list DecoSpec.t :=
  match l with
  | [] => []
  | d :: l' => insert_by_from d (sort_by_from l')
  end.

(** The decorations handed to the [RangeSetBuilder], in order. *)
Definition buildDecorations : list DecoSpec.t :=
  let diff := diff_of (length doc) (scan doc) in
  let st := fold_left (build_step diff) (doc_lines doc) (mkState 0 0 false []) in
  sort_by_from (decos st).

End Builder.

(** ** Heading fold service ([notionFoldService], lines 555-612) *)

(** [text.match(/^(#+)\s/)]: the level [match[1].length].  Whitespace
    cannot match [#], so the only candidate is the maximal run of [#]. *)
Definition hashLevel (s : string) : option nat :=
  let (h, r) := span_hash s in
  if 1 <=? h then
    match r with
    | String c _ => if is_js_space c then Some h else None
    | EmptyString => None
    end
  else None.

(** The forward scan of lines 574-596, from line [i] on, with the toggle
    counter [toggleStack]: [Some (i - 1)] at a stop, [None] when the
    document ends ([endLineNo] stays [-1]).  The markers are tested on the
    untrimmed text. *)
Fixpoint heading_loop (headerLevel i : nat) (ts : list string) (toggleStack : nat)
  : option nat :=
  match ts with
  | [] => None
  | nextLineText :: ts' =>
      let after_tags :=
        if startsWith nextLineText START_TAG then inl (S toggleStack)
        else if startsWith nextLineText END_TAG then
          if 0 <? toggleStack then inl (toggleStack - 1) else inr (i - 1)
        else inl toggleStack in
      match after_tags with
      | inr endLineNo => Some endLineNo
      | inl toggleStack' =>
          match hashLevel nextLineText with
          | Some nextLevel =>
              if nextLevel <=? headerLevel then Some (i - 1)
              else heading_loop headerLevel (S i) ts' toggleStack'
          | None => heading_loop headerLevel (S i) ts' toggleStack'
          end
      end
  end.

(** The fold range offered for line number [n] ([state.doc.lineAt] of
    the line's start), [None] for [null].  The code-block part after the
    heading part returns [null] on both of its paths. *)
Definition notionFoldService (doc : Doc) (n : nat) : option (nat * nat) :=
  let line := doc_line doc n in
  let text := text line in
  if startsWith text START_TAG then None
  else if startsWith (trimStart text) "#" then
    match hashLevel text with
    | None => None
    | Some headerLevel =>
        match heading_loop headerLevel (S n) (skipn n doc) 0 with
        | Some endLineNo =>
            if n <? endLineNo then Some (to line, to (doc_line doc endLineNo)) else None
        | None => None
        end
    end
  else None.

(** The scope of the specification's heading-fold rule, where [OpenToggle]
    and [CloseToggle] are read on the whitespace-trimmed text: the first
    line, in document order, that is a [CloseToggle] while the counter is
    0 or a heading of level at most [headerLevel]; the scope ends one line
    above it. *)
Fixpoint heading_scope_spec_loop (headerLevel i : nat) (ts : list string) (counter : nat)
  : option nat :=
  match ts with
  | [] => None
  | t :: ts' =>
      let isOpen := startsWith (trimStart t) START_TAG in
      let isClose := startsWith (trimStart t) END_TAG in
      let isStopHeading :=
        match hashLevel t with Some lv => lv <=? headerLevel | None => false end in
      if (isClose && (counter =? 0)) || isStopHeading then Some (i - 1)
      else heading_scope_spec_loop headerLevel (S i) ts'
             (if isOpen then S counter else if isClose then counter - 1 else counter)
  end.

Definition heading_scope_spec (doc : Doc) (n : nat) : option nat :=
  match hashLevel (text (doc_line doc n)) with
  | Some headerLevel => heading_scope_spec_loop headerLevel (S n) (skipn n doc) 0
  | None => None
  end.

(** ** Fold state ([foldState], src/togglePlugin.ts lines 10-37) *)

(** A JS [Set<number>] as its list of elements in insertion order. *)
Definition set_add (x : nat) (s : list nat) : list nat :=
  if existsb (Nat.eqb x) s then s else s ++ [x].

Definition set_delete (x : nat) (s : list nat) : list nat :=
  filter (fun y => negb (Nat.eqb x y)) s.

Record ToggleEffect := mkEffect { pos : nat; on : bool }.

(** Lines 15-21: every position mapped through [tr.changes.mapPos] and
    added to a fresh set. *)
Definition remap (mapPos : nat -> nat) (value : list nat) : list nat :=
  fold_left (fun newValue p => set_add (mapPos p) newValue) value [].

(** Lines 24-32: the toggle effects in order. *)
Definition apply_effect (newValue : list nat) (e : ToggleEffect) : list nat :=
  if on e then set_add (pos e) newValue else set_delete (pos e) newValue.

Definition foldState_update (mapPos : nat -> nat) (effects : list ToggleEffect)
  (value : list nat) : list nat :=
  fold_left apply_effect effects (remap mapPos value).

(** [mapPos] of a change deleting [[a, b)] (association -1: a deleted
    position maps to [a]). *)
Definition mapPos_delete (a b p : nat) : nat :=
  if p <? a then p else if p <? b then a else p - (b - a).

(** ** Flat text and the copy button *)

Definition LF : string := String (ascii_of_nat 10) EmptyString.

(** The document's text: its lines joined by line breaks. *)
Definition doc_string (doc : Doc) : string := String.concat LF doc.

(** [doc.sliceString(from, to)]: the text between two offsets, clipped to
    the document (an empty result when [to <= from]). *)
Definition sliceString (doc : Doc) (a b : nat) : string :=
  substring a (b - a) (doc_string doc).

(** What the click handler of [CopyWidget] (lines 475-489) writes to the
    clipboard. *)
Definition copy_text (doc : Doc) (startLineNo endLineNo : nat) : string :=
  if endLineNo <=? startLineNo + 1 then ""
  else
    let fromPos := from (doc_line doc (startLineNo + 1)) in
    let toPos := to (doc_line doc (endLineNo - 1)) in
    sliceString doc fromPos toPos.

(** ** Auto-close keymap (lines 919-942) *)

(** The text the Space binding inserts after [|>]. *)
Definition autoClose_insertText : string := (" " ++ LF ++ LF ++ "<|")%string.

(** The [run] handler of the Space binding of [autoCloseKeymap].  [None]
    when it returns false (the key falls through to the default
    insertion); otherwise the document text after the dispatched change and
    the new cursor position.  A range is [(from, to)], its head being both
    ends when it is empty; [sliceString] clips a negative start to 0. *)
Definition autoCloseKeymap_run (doc : Doc) (ranges : list SelRange)
  : option (string * nat) :=
  match ranges with
  | [(rfrom, rto)] =>
      if negb (rfrom =? rto) then None
      else
        let pos := rto in
        let prevChars := sliceString doc (pos - 2) pos in
        if String.eqb prevChars "|>" then
          let s := doc_string doc in
          Some ((substring 0 pos s ++ autoClose_insertText
                 ++ substring pos (String.length s - pos) s)%string, pos + 1)
        else None
  | _ => None
  end.

(** [Text.of(s.split("\n"))]: the lines of a flat text. *)
Fixpoint lines_of (s : string) : Doc :=
  match s with
  | EmptyString => [EmptyString]
  | String c s' =>
      let ls := lines_of s' in
      if Ascii.eqb c (ascii_of_nat 10) then EmptyString :: ls
      else match ls with
           | l :: ls' => String c l :: ls'
           | [] => [String c EmptyString]
           end
  end.

(** A line of a [Text] holds no line break. *)
Fixpoint no_LF (s : string) : bool :=
  match s with
  | EmptyString => true
  | String c s' => negb (Ascii.eqb c (ascii_of_nat 10)) && no_LF s'
  end.

(** ** Hidden native fold arrows ([hideNativeFoldGutter], lines 950-974) *)

(** The positions given to [builder.add(line.from, line.from,
    hideFoldMarker)], in the order of the calls. *)
Fixpoint hideGutter_loop (ls : list Line) : list nat :=
  match ls with
  | [] => []
  | line :: ls' =>
      let text := trimStart (text line) in
      if startsWith text START_TAG then
        let contentAfter := slice text (String.length START_TAG) in
        let isHeader := match headerMatch contentAfter with Some _ => true | None => false end in
        if negb isHeader then from line :: hideGutter_loop ls' else hideGutter_loop ls'
      else if (startsWith text "```" || startsWith text "~~~") && isCodeBlockToggle text then
        from line :: hideGutter_loop ls'
      else hideGutter_loop ls'
  end.

Definition hideNativeFoldGutter (doc : Doc) : list nat := hideGutter_loop (doc_lines doc).

(** ** Commands of [src/main.ts] *)

(** An Obsidian [EditorPosition]: 0-based line and column. *)
Record EditorPosition := mkEditorPosition { line : nat; ch : nat }.

Fixpoint cursor_loop (ls : list Line) (pos : nat) : EditorPosition :=
  match ls with
  | [] => mkEditorPosition 0 0
  | ln :: ls' =>
      if pos <=? to ln then mkEditorPosition (number ln - 1) (pos - from ln)
      else cursor_loop ls' pos
  end.

(** [editor.getCursor()] when the head of the selection is at offset
    [pos]. *)
Definition getCursor (doc : Doc) (pos : nat) : EditorPosition :=
  cursor_loop (doc_lines doc) pos.

(** The text after the offsets [a <= b] are replaced by [t]. *)
Definition replaceRange (s : string) (a b : nat) (t : string) : string :=
  (substring 0 a s ++ t ++ substring b (String.length s - b) s)%string.

(** The [insert-toggle] command (lines 10-35) on a selection [(from, to)]:
    the new text and the position given to [setCursor], if any. *)
Definition insertToggle (doc : Doc) (sel : SelRange) : string * option EditorPosition :=
  let '(sfrom, sto) := sel in
  let s := doc_string doc in
  let selection := substring sfrom (sto - sfrom) s in
  if negb (String.eqb selection "") then
    (replaceRange s sfrom sto ("|> " ++ LF ++ selection ++ LF ++ "<|")%string, None)
  else
    let start := "|> " in
    let body := (LF ++ LF)%string in
    let end_ := "<|" in
    let cursorBefore := getCursor doc sto in
    (replaceRange s sfrom sto (start ++ body ++ end_)%string,
     Some (mkEditorPosition (line cursorBefore) (ch cursorBefore + 3))).

(** The [insert-code-toggle] command (lines 37-60). *)
Definition insertCodeToggle (doc : Doc) (sel : SelRange) : string * option EditorPosition :=
  let '(sfrom, sto) := sel in
  let s := doc_string doc in
  let selection := substring sfrom (sto - sfrom) s in
  if negb (String.eqb selection "") then
    (replaceRange s sfrom sto ("```> " ++ LF ++ selection ++ LF ++ "```")%string, None)
  else
    let start := "```> " in
    let body := (LF ++ LF)%string in
    let end_ := "```" in
    let cursorBefore := getCursor doc sto in
    (replaceRange s sfrom sto (start ++ body ++ end_)%string,
     Some (mkEditorPosition (line cursorBefore) (ch cursorBefore + 5))).

(** ** Second version of [src/togglePlugin.ts] (lines 199-326) *)

Module V2.

Inductive Widget := ToggleWidget (isFolded : bool) (foldStart foldEnd : nat).

(** The first line from [j] on whose (untrimmed) text starts with
    [END_TAG]. *)
Fixpoint find_end (j : nat) (ts : list string) : option nat :=
  match ts with
  | [] => None
  | t :: ts' => if startsWith t END_TAG then Some j else find_end (S j) ts'
  end.

(** [notionFoldService] (lines 242-255) for the line number [n] of
    [lineAt(lineStart)]. *)
Definition notionFoldService (doc : Doc) (n : nat) : option (nat * nat) :=
  let line := doc_line doc n in
  if startsWith (text line) START_TAG then
    match find_end (S n) (skipn n doc) with
    | Some i => Some (to line, to (doc_line doc i))
    | None => None
    end
  else None.

(** The loop of [buildDecorations] of [toggleWidgetPlugin] (lines
    273-318): the [builder.add(from, to, replace widget)] calls in order. *)
Fixpoint build_loop (doc : Doc) (folded : list (nat * nat)) (ls : list Line)
  : list (nat * nat * Widget) :=
  match ls with
  | [] => []
  | line :: ls' =>
      if startsWith (text line) START_TAG then
        match find_end (S (number line)) (skipn (number line) doc) with
        | Some endLineNo =>
            let foldStart := to line in
            let foldEnd := to (doc_line doc endLineNo) in
            (from line, from line + String.length START_TAG,
             ToggleWidget (isFoldedRange folded foldStart foldEnd) foldStart foldEnd)
              :: build_loop doc folded ls'
        | None => build_loop doc folded ls'
        end
      else build_loop doc folded ls'
  end.

Definition buildDecorations (doc : Doc) (folded : list (nat * nat)) : list (nat * nat * Widget) :=
  build_loop doc folded (doc_lines doc).

End V2.

(** ** First version of [src/togglePlugin.ts] (lines 1-185) *)

(** [doc.length]: the number of characters of the document. *)
Definition doc_length (doc : Doc) : nat := String.length (doc_string doc).

Module V0.

(** [TOGGLE_SYNTAX = /^\|>\s/] (line 4) tested with [text.match]. *)
Definition TOGGLE_SYNTAX_match (s : string) : bool :=
  match s with
  | String c1 (String c2 (String c3 _)) =>
      Ascii.eqb c1 "|"%char && Ascii.eqb c2 ">"%char && is_js_space c3
  | _ => false
  end.

Inductive Widget := ToggleWidget (isFolded : bool).

(** The click handler of [ToggleWidget] (lines 51-58): the effect it
    dispatches, [pos] being [view.posAtDOM(span)]. *)
Definition ToggleWidget_onclick (w : Widget) (pos : nat) : ToggleEffect :=
  match w with ToggleWidget isFolded => mkEffect pos (negb isFolded) end.

(** [Decoration.replace({ widget })] and [Decoration.replace({ block: true })]. *)
Inductive Decoration := ReplaceWidget (w : Widget) | ReplaceBlock.

(** The inner [while (j <= doc.lines)] loop (lines 134-143): the end of
    the fold and the final value of [j].  Each round increments [j], so
    [fuel] rounds with [doc.lines + 1 - j <= fuel] run it to the end. *)
Fixpoint scan_next (doc : Doc) (j fuel : nat) : nat * nat :=
  match fuel with
  | 0 => (doc_length doc, j)
  | S fuel' =>
      if j <=? length doc then
        let verifyLine := doc_line doc j in
        if TOGGLE_SYNTAX_match (text verifyLine) then (from verifyLine - 1, j)
        else scan_next doc (S j) fuel'
      else (doc_length doc, j)
  end.

(** The outer [while (i <= doc.lines)] loop (lines 112-169): the
    [builder.add] calls in order.  Each round increases [i]. *)
Fixpoint build_loop (doc : Doc) (foldedPositions : list nat) (fuel i : nat)
  : list (nat * nat * Decoration) :=
  match fuel with
  | 0 => []
  | S fuel' =>
      if i <=? length doc then
        let line := doc_line doc i in
        if TOGGLE_SYNTAX_match (text line) then
          let isFolded := existsb (Nat.eqb (from line)) foldedPositions in
          (from line, from line + 3, ReplaceWidget (ToggleWidget isFolded))
            :: (if isFolded then
                  let startFold := to line + 1 in
                  if doc_length doc <? startFold then build_loop doc foldedPositions fuel' (S i)
                  else
                    let (endFold, j) := scan_next doc (S i) (length doc) in
                    (if startFold <? endFold then [(startFold, endFold, ReplaceBlock)] else [])
                      ++ build_loop doc foldedPositions fuel' j
                else build_loop doc foldedPositions fuel' (S i))
        else build_loop doc foldedPositions fuel' (S i)
      else []
  end.

(** [buildDecorations] (lines 86-172) with the positions of [foldState]. *)
Definition buildDecorations (doc : Doc) (foldedPositions : list nat)
  : list (nat * nat * Decoration) :=
  build_loop doc foldedPositions (length doc) 1.

End V0.

(** ** First version of [src/editor_extension.ts] (lines 1-377) *)

Module V1.

(** [findMatchingEndLine] (lines 108-122): the markers are tested on the
    untrimmed text; [None] stands for [-1]. *)
Fixpoint fme_loop (i : nat) (ts : list string) (stack : nat) : option nat :=
  match ts with
  | [] => None
  | lineText :: ts' =>
      if startsWith lineText START_TAG then fme_loop (S i) ts' (S stack)
      else if startsWith lineText END_TAG then
        if Nat.eqb (stack - 1) 0 then Some i else fme_loop (S i) ts' (stack - 1)
      else fme_loop (S i) ts' stack
  end.

Definition findMatchingEndLine (doc : Doc) (startLineNo : nat) : option nat :=
  fme_loop (S startLineNo) (skipn startLineNo doc) 1.

(** [notionFoldService] (lines 125-136) for the line number [n] of
    [lineAt(lineStart)]. *)
Definition notionFoldService (doc : Doc) (n : nat) : option (nat * nat) :=
  let line := doc_line doc n in
  if startsWith (text line) START_TAG then
    match findMatchingEndLine doc (number line) with
    | Some endLineNo => Some (to line, to (doc_line doc endLineNo))
    | None => None
    end
  else None.

End V1.

(** ** Sample documents *)

(** Example 2 of the specification. *)
Definition example2 : Doc := ["|> A"; "|> B"; "X"; "<|"; "<|"].

(* ====================================================================== *)
(** * Properties *)

(** The triangle, end and copy widgets of Example 1 with the cursor on
    its content line. *)
Example build_ex1 :
  buildDecorations ["|> A"; "B"; "<|"] [(6, 6)] [] =
  [DecoSpec.mk 0 0 (DecoLine "toggle-bg toggle-bg-level-1 toggle-round-top");
   DecoSpec.mk 0 3 (DecoReplace (ToggleWidget false 4 9 false) true);
   DecoSpec.mk 4 4 (DecoWidget (CopyWidget 1 3) 1);
   DecoSpec.mk 5 5 (DecoLine "toggle-bg toggle-bg-level-1");
   DecoSpec.mk 7 7 (DecoLine "toggle-bg toggle-bg-level-1 toggle-round-bot");
   DecoSpec.mk 7 9 (DecoReplace (EndTagWidget 7 0 false) true)].
Proof. vm_compute. reflexivity. Qed.

Example scan_ex2 : scan ["|> A"; "|> B"; "X"; "<|"; "<|"] = [mkRange 2 4; mkRange 1 5].
Proof. reflexivity. Qed.

Example depth_ex2 : depthByLine ["|> A"; "|> B"; "X"; "<|"; "<|"] = [1; 2; 2; 2; 1]%Z.
Proof. reflexivity. Qed.

(** ** Scanner invariant *)

Section ScanInvariant.

(** The loop invariant at line [i]: stack entries are earlier lines,
    top first and strictly decreasing; accepted ranges are closed before
    [i]; ranges are pairwise well nested; no stack entry lies inside a
    range. *)
Definition scan_inv (i : nat) (openStack : list nat) (validRanges : list Range) : Prop :=
  (forall p, In p openStack -> 1 <= p < i) /\
  StronglySorted (fun a b => b < a) openStack /\
  (forall r, In r validRanges -> 1 <= start r < end_ r /\ end_ r < i) /\
  (forall r1 r2, In r1 validRanges -> In r2 validRanges -> r1 <> r2 -> well_nested r1 r2) /\
  (forall p r, In p openStack -> In r validRanges -> p < start r \/ end_ r < p).

Lemma well_nested_sym : forall r1 r2, well_nested r1 r2 -> well_nested r2 r1.
Proof. unfold well_nested; intros r1 r2 H; lia. Qed.

Lemma scan_inv_init : scan_inv 1 [] [].
Proof. repeat split; simpl; intros; try contradiction; constructor. Qed.

Ltac split_inv := split; [| split; [| split; [| split]]].

Lemma scan_inv_push : forall i st rs, scan_inv i st rs -> 1 <= i -> scan_inv (S i) (i :: st) rs.
Proof.
  intros i st rs (H1 & H2 & H3 & H4 & H5) Hi. split_inv.
  - intros p [<- | Hp]; [lia | specialize (H1 p Hp); lia].
  - constructor; [exact H2 |]. apply Forall_forall. intros p Hp. specialize (H1 p Hp). lia.
  - intros r Hr. specialize (H3 _ Hr). lia.
  - exact H4.
  - intros p r [<- | Hp] Hr; [specialize (H3 _ Hr); lia | auto].
Qed.

Lemma scan_inv_pop : forall i s st rs,
  scan_inv i (s :: st) rs -> scan_inv (S i) st (rs ++ [mkRange s i]).
Proof.
  intros i s st rs (H1 & H2 & H3 & H4 & H5).
  inversion H2 as [| ? ? Hst Hall]; subst.
  rewrite Forall_forall in Hall.
  assert (Hs : 1 <= s < i) by (apply H1; left; reflexivity).
  split_inv.
  - intros p Hp. specialize (H1 p (or_intror Hp)). lia.
  - exact Hst.
  - intros r Hr. apply in_app_or in Hr as [Hr | [<- | []]];
      [specialize (H3 _ Hr) | simpl]; lia.
  - intros r1 r2 Hr1 Hr2 Hne.
    apply in_app_or in Hr1 as [Hr1 | [<- | []]];
    apply in_app_or in Hr2 as [Hr2 | [<- | []]].
    + auto.
    + specialize (H3 _ Hr1). specialize (H5 s r1 (or_introl eq_refl) Hr1).
      unfold well_nested; simpl; lia.
    + specialize (H3 _ Hr2). specialize (H5 s r2 (or_introl eq_refl) Hr2).
      unfold well_nested; simpl; lia.
    + congruence.
  - intros p r Hp Hr. apply in_app_or in Hr as [Hr | [<- | []]].
    + apply H5; [right |]; assumption.
    + simpl. specialize (Hall p Hp). lia.
Qed.

Lemma scan_inv_skip : forall i st rs, scan_inv i st rs -> scan_inv (S i) st rs.
Proof.
  intros i st rs (H1 & H2 & H3 & H4 & H5). split_inv; auto.
  - intros p Hp. specialize (H1 p Hp). lia.
  - intros r Hr. specialize (H3 _ Hr). lia.
Qed.

Lemma scan_lines_inv : forall ts i st rs,
  1 <= i -> scan_inv i st rs ->
  let '(st', rs') := scan_lines i ts st rs in scan_inv (i + length ts) st' rs'.
Proof.
  induction ts as [| t ts IH]; intros i st rs Hi Hinv; simpl.
  - rewrite Nat.add_0_r. exact Hinv.
  - replace (i + S (length ts)) with (S i + length ts) by lia.
    destruct (startsWith t START_TAG).
    + apply IH; [lia | apply scan_inv_push; auto].
    + destruct (startsWith t END_TAG); [destruct st as [| s st] |].
      * apply IH; [lia | apply scan_inv_skip; auto].
      * apply IH; [lia | apply scan_inv_pop; auto].
      * apply IH; [lia | apply scan_inv_skip; auto].
Qed.

Lemma scan_inv_doc : forall doc,
  scan_inv (1 + length doc) (fst (scan_lines 1 doc [] [])) (scan doc).
Proof.
  intros doc. unfold scan.
  pose proof (scan_lines_inv doc 1 [] [] (le_n 1) scan_inv_init) as H.
  destruct (scan_lines 1 doc [] []). exact H.
Qed.

End ScanInvariant.


(** C1: the Toggle blocks accepted by the stack-based scan are well nested:
    every block starts strictly before it ends, and two distinct blocks are
    disjoint or one strictly contains the other. *)
Theorem scan_well_nested : forall doc,
  (forall b, In b (scan doc) -> start b < end_ b) /\
  (forall b1 b2, In b1 (scan doc) -> In b2 (scan doc) -> b1 <> b2 -> well_nested b1 b2).
Proof.
  intros doc. destruct (scan_inv_doc doc) as (_ & _ & H3 & H4 & _). split.
  - intros b Hb. specialize (H3 b Hb). lia.
  - exact H4.
Qed.

(** ** Depth pass *)

Section DepthPass.

(** Number of accepted ranges satisfying [p]. *)
Definition cnt (p : Range -> bool) (rs : list Range) : Z := Z.of_nat (length (filter p rs)).

Lemma cnt_cons : forall p r rs, cnt p (r :: rs) = (Z.b2z (p r) + cnt p rs)%Z.
Proof. intros p r rs. unfold cnt. cbn [filter]. destruct (p r); cbn [length Z.b2z]; lia. Qed.

Lemma cnt_linear : forall p q a b rs,
  (forall r, In r rs -> Z.b2z (p r) - Z.b2z (q r) = Z.b2z (a r) - Z.b2z (b r))%Z ->
  (cnt p rs - cnt q rs = cnt a rs - cnt b rs)%Z.
Proof.
  intros p q a b rs. induction rs as [| r rs IH]; intros H; [reflexivity |].
  rewrite !cnt_cons. specialize (H r (or_introl eq_refl)) as Hr.
  assert (IH' := IH (fun x Hx => H x (or_intror Hx))). lia.
Qed.

Lemma cnt_none : forall p rs, (forall r, In r rs -> p r = false) -> cnt p rs = 0%Z.
Proof.
  intros p rs. induction rs as [| r rs IH]; intros H; [reflexivity |].
  rewrite cnt_cons, H, IH; [reflexivity | | left; reflexivity].
  intros r' Hr'. apply H. right. exact Hr'.
Qed.

Lemma wrap32_id : forall z, (- 2 ^ 31 <= z < 2 ^ 31)%Z -> wrap32 z = z.
Proof. intros z Hz. unfold wrap32. rewrite Z.mod_small; lia. Qed.

Lemma upd_length : forall a k f, length (upd a k f) = length a.
Proof. induction a as [| x a IH]; intros [| k] f; simpl; auto. Qed.

Lemma nth_upd : forall a k j f,
  nth k (upd a j f) 0%Z = if (k =? j) && (j <? length a) then f (nth k a 0%Z) else nth k a 0%Z.
Proof.
  induction a as [| x a IH]; intros k j f.
  - simpl. rewrite andb_false_r. destruct k, j; reflexivity.
  - destruct k as [| k], j as [| j]; simpl; auto.
Qed.

Lemma diff_fold : forall rs acc,
  (forall r, In r rs -> start r <= end_ r /\ end_ r + 1 < length acc) ->
  (forall k, Z.abs (nth k acc 0) + Z.of_nat (length rs) < 2 ^ 31)%Z ->
  forall k, nth k (fold_left diff_step rs acc) 0%Z =
    (nth k acc 0 + cnt (fun r => Nat.eqb (start r) k) rs - cnt (fun r => Nat.eqb (end_ r + 1) k) rs)%Z.
Proof.
  induction rs as [| r rs IH]; intros acc Hr Hb k; simpl.
  - unfold cnt; simpl; lia.
  - destruct (Hr r (or_introl eq_refl)) as [Hse Hlen].
    assert (Hstep : forall k, nth k (diff_step acc r) 0%Z =
              (nth k acc 0 + Z.b2z (Nat.eqb (start r) k) - Z.b2z (Nat.eqb (end_ r + 1) k))%Z).
    { intros k'. unfold diff_step.
      replace (Nat.leb (start r) (end_ r)) with true by (symmetry; apply Nat.leb_le; lia).
      rewrite nth_upd, upd_length, nth_upd.
      specialize (Hb k'). simpl in Hb.
      destruct (Nat.eqb_spec k' (end_ r + 1)); destruct (Nat.eqb_spec k' (start r));
        destruct (Nat.ltb_spec (end_ r + 1) (length acc));
        destruct (Nat.ltb_spec (start r) (length acc));
        subst; simpl; rewrite ?Nat.eqb_refl;
        repeat match goal with
        | |- context [?a =? ?b] => destruct (Nat.eqb_spec a b)
        end; simpl;
        rewrite ?wrap32_id; lia. }
    rewrite IH.
    + rewrite Hstep, !cnt_cons. lia.
    + intros r' Hr'. unfold diff_step.
      destruct (Hr r' (or_intror Hr')). destruct (Nat.leb (start r) (end_ r));
        rewrite ?upd_length; auto.
    + intros k'. rewrite Hstep. specialize (Hb k'). simpl in Hb.
      destruct (Nat.eqb (start r) k'), (Nat.eqb (end_ r + 1) k'); simpl; lia.
Qed.

Lemma levels_tele : forall (G : nat -> Z) (d : list Z) (cnt' i : nat) (cur : Z) (m : nat),
  1 <= i ->
  (forall k, i <= k < i + cnt' -> nth k d 0%Z = (G k - G (Nat.pred k))%Z) ->
  m < cnt' ->
  nth m (levels d i cnt' cur) 0%Z = (cur + G (i + m)%nat - G (Nat.pred i))%Z.
Proof.
  intros G d cnt'. induction cnt' as [| c IH]; intros i cur m Hi Hd Hm; [lia |].
  simpl. destruct m as [| m].
  - rewrite Hd by lia. rewrite Nat.add_0_r. lia.
  - rewrite IH by (try lia; intros k Hk; apply Hd; lia).
    rewrite Hd by lia. replace (S i + m) with (i + S m) by lia.
    simpl Nat.pred. lia.
Qed.

Lemma scan_lines_length : forall ts i st rs,
  length (snd (scan_lines i ts st rs)) <= length rs + length ts.
Proof.
  induction ts as [| t ts IH]; intros i st rs; simpl; [lia |].
  destruct (startsWith t START_TAG); [specialize (IH (S i) (i :: st) rs); lia |].
  destruct (startsWith t END_TAG); [destruct st as [| s st] |].
  - specialize (IH (S i) [] rs); lia.
  - specialize (IH (S i) st (rs ++ [mkRange s i])%list). rewrite length_app in IH. simpl in IH. lia.
  - specialize (IH (S i) st rs); lia.
Qed.

End DepthPass.

(** C2 (amended) *)
(** C2: the level computed for line [i] by the difference-array pass is the
    number of accepted Toggle blocks [b] with [b.start <= i <= b.end]; the
    open line of a block counts toward its own depth. *)
Theorem depthByLine_counts : forall doc i,
  (Z.of_nat (length doc) < 2 ^ 31)%Z ->
  1 <= i <= length doc ->
  nth (i - 1) (depthByLine doc) 0%Z =
    cnt (fun b => (start b <=? i) && (i <=? end_ b)) (scan doc).
Proof.
  intros doc i Hn Hi.
  destruct (scan_inv_doc doc) as (_ & _ & Hr & _ & _).
  pose proof (scan_lines_length doc 1 [] []) as Hlen. simpl in Hlen. fold (scan doc) in Hlen.
  set (G := fun k => cnt (fun b => (start b <=? k) && (k <=? end_ b)) (scan doc)).
  assert (Hd : forall k, 1 <= k < 1 + length doc ->
            nth k (diff_of (length doc) (scan doc)) 0%Z = (G k - G (Nat.pred k))%Z).
  { intros k Hk. unfold diff_of. rewrite diff_fold.
    - rewrite nth_repeat_lt by lia. unfold G.
      rewrite Z.add_0_l. symmetry. apply cnt_linear. intros b Hb.
      specialize (Hr b Hb).
      destruct (Nat.leb_spec (start b) k), (Nat.leb_spec k (end_ b)),
               (Nat.leb_spec (start b) (Nat.pred k)), (Nat.leb_spec (Nat.pred k) (end_ b)),
               (Nat.eqb_spec (start b) k), (Nat.eqb_spec (end_ b + 1) k); simpl; lia.
    - intros b Hb. specialize (Hr b Hb). rewrite repeat_length. lia.
    - intros k'. rewrite nth_repeat. simpl. lia. }
  unfold depthByLine.
  rewrite (levels_tele G _ (length doc) 1 0 (i - 1)) by (try lia; exact Hd).
  unfold G. replace (1 + (i - 1)) with i by lia. simpl Nat.pred.
  replace (cnt (fun b => (start b <=? 0) && (0 <=? end_ b)) (scan doc)) with 0%Z; [lia |].
  symmetry. apply cnt_none. intros b Hb. specialize (Hr b Hb). destruct (start b); [lia | reflexivity].
Qed.

Lemma depthByLine_counts_witness :
  nth (1 - 1) (depthByLine example2) 0%Z =
    cnt (fun b => (start b <=? 1) && (1 <=? end_ b)) (scan example2).
Proof. apply depthByLine_counts; [vm_compute; reflexivity | simpl; lia]. Defined.

(** C2 (counterexample): on Example 2 the open line of the outer block has
    level 1, not 0, and the levels are [1;2;2;2;1]. *)
Lemma depthByLine_example2_counterexample :
  nth 0 (depthByLine example2) 0%Z <>
    cnt (fun b => (start b <? 1) && (1 <=? end_ b)) (scan example2) /\
  depthByLine example2 <> [0; 1; 2; 2; 1]%Z.
Proof. split; vm_compute; discriminate. Qed.

(** ** String facts *)

Lemma prefix_cons : forall a p t,
  String.prefix (String a p) t = true -> exists t', t = String a t' /\ String.prefix p t' = true.
Proof.
  intros a p [| b t] H; simpl in H; [discriminate |].
  destruct (ascii_dec a b) as [<- | _]; [eauto | discriminate].
Qed.

Lemma prefix_length : forall p t, String.prefix p t = true -> String.length p <= String.length t.
Proof.
  induction p as [| a p IH]; intros t H; simpl; [lia |].
  apply prefix_cons in H as (t' & -> & H). simpl. specialize (IH _ H). lia.
Qed.

Lemma trimStart_length : forall s, String.length (trimStart s) <= String.length s.
Proof.
  induction s as [| c s IH]; simpl; [lia |]. destruct (is_js_space c); simpl; lia.
Qed.

Lemma start_not_end : forall t, startsWith t START_TAG = true -> startsWith t END_TAG = false.
Proof.
  intros t H. unfold startsWith in *. apply prefix_cons in H as (t' & -> & _). reflexivity.
Qed.

Lemma start_not_fence : forall t, startsWith t START_TAG = true ->
  (startsWith t "```" || startsWith t "~~~") = false.
Proof.
  intros t H. unfold startsWith in *. apply prefix_cons in H as (t' & -> & _). reflexivity.
Qed.

Lemma start_length : forall t, startsWith t START_TAG = true -> 3 <= String.length t.
Proof. intros t H. apply prefix_length in H. exact H. Qed.

Lemma end_length : forall t, startsWith t END_TAG = true -> 2 <= String.length t.
Proof. intros t H. apply prefix_length in H. exact H. Qed.

(** ** Lines *)

Definition line_wf (ln : Line) : Prop := to ln = from ln + String.length (text ln).

Lemma mk_lines_wf : forall ts n off ln, In ln (mk_lines n off ts) -> line_wf ln.
Proof.
  induction ts as [| t ts IH]; intros n off ln H; simpl in H; [contradiction |].
  destruct H as [<- | H]; [reflexivity | eapply IH; eauto].
Qed.

Lemma mk_lines_from_ge : forall ts n off ln, In ln (mk_lines n off ts) -> off <= from ln.
Proof.
  induction ts as [| t ts IH]; intros n off ln H; simpl in H; [contradiction |].
  destruct H as [<- | H]; [simpl; lia | specialize (IH _ _ _ H); lia].
Qed.

(** ** Order of the builder's output *)

Ltac split_in :=
  repeat match goal with
  | H : In _ (_ ++ _) |- _ => apply in_app_or in H; destruct H as [H | H]
  end.

Ltac use_forall :=
  repeat match goal with
  | H : Forall ?P ?l, Ha : In ?a ?l |- _ =>
      let Hn := fresh in pose proof (proj1 (Forall_forall P l) H a Ha) as Hn; clear Ha; simpl in Hn
  end.


Section BuilderOrder.

Variable doc : Doc.
Variable selection : list SelRange.
Variable folded : list (nat * nat).

(** Two decorations pushed in this order and sharing [from]: the first ends
    no later than the second and one of them is zero-width. *)
Definition same_from_ok (a b : DecoSpec.t) : Prop :=
  DecoSpec.from a = DecoSpec.from b ->
  DecoSpec.to a <= DecoSpec.to b /\
  (DecoSpec.from a = DecoSpec.to a \/ DecoSpec.from b = DecoSpec.to b).

Lemma FOP_app : forall {A} (R : A -> A -> Prop) l1 l2,
  ForallOrdPairs R l1 -> ForallOrdPairs R l2 ->
  (forall a b, In a l1 -> In b l2 -> R a b) -> ForallOrdPairs R (l1 ++ l2).
Proof.
  intros A R l1 l2 H1. induction H1 as [| a l1 Ha H1 IH]; intros H2 Hx; simpl; [exact H2 |].
  constructor.
  - apply Forall_app. split; [exact Ha |]. apply Forall_forall. intros b Hb.
    apply Hx; [left; reflexivity | exact Hb].
  - apply IH; [exact H2 |]. intros a' b Ha' Hb. apply Hx; [right |]; assumption.
Qed.

Lemma FOP_small : forall {A} (R : A -> A -> Prop) l, length l <= 1 -> ForallOrdPairs R l.
Proof.
  intros A R [| a [| b l]] H; simpl in H; try lia; repeat constructor.
Qed.

Lemma headerMatch_len : forall s lvl m, headerMatch s = Some (lvl, m) -> 1 <= m.
Proof.
  intros s lvl m. unfold headerMatch.
  destruct (span_ws s) as [w r1]. destruct (span_hash r1) as [h r2].
  destruct ((1 <=? h) && (h <=? 6)); [| discriminate].
  destruct r2 as [| c r]; [discriminate |].
  destruct (is_js_space c); [| discriminate]. intros [=]. lia.
Qed.

Section OneLine.

Variable ln : Line.
Hypothesis Hwf : line_wf ln.

Let tr := trimStart (text ln).
Let off := from ln.
Let ind := indentLen (text ln).
Let T := to ln.

Lemma T_eq : T = off + ind + String.length tr.
Proof.
  unfold T, off, ind, tr, indentLen. rewrite Hwf.
  pose proof (trimStart_length (text ln)). lia.
Qed.

Lemma hash_shape :
  length (header_hash_decos selection ln) <= 1 /\
  Forall (fun d => DecoSpec.from d = off + ind + 3 /\
                   DecoSpec.from d < DecoSpec.to d /\ DecoSpec.to d <= T)
    (header_hash_decos selection ln).
Proof.
  unfold header_hash_decos. fold tr.
  destruct (startsWith tr START_TAG); [| simpl; auto].
  destruct (headerMatch _) as [[lvl m] |] eqn:Hm; [| simpl; auto].
  apply headerMatch_len in Hm.
  destruct (touches _ _ _); [simpl; auto |].
  match goal with |- context [if ?c then _ else _] => destruct c eqn:E end;
    simpl; (split; [lia |]); repeat constructor; apply Nat.leb_le in E;
    unfold off, ind, T; simpl in *; lia.
Qed.

Lemma background_shape : forall lvl,
  ForallOrdPairs same_from_ok (background_decos selection ln lvl) /\
  (forall d, In d (background_decos selection ln lvl) ->
     (DecoSpec.from d = off + ind + 3 /\ DecoSpec.from d < DecoSpec.to d /\ DecoSpec.to d <= T) \/
     (DecoSpec.from d = off /\ DecoSpec.to d = off)).
Proof.
  intros lvl. destruct hash_shape as [Hl Hf]. rewrite Forall_forall in Hf.
  unfold background_decos. destruct (0 <? lvl)%Z; [| split; [constructor | simpl; tauto]].
  split.
  - apply FOP_app; [apply FOP_small; exact Hl | apply FOP_small; simpl; lia |].
    intros a b Ha [<- | []]. specialize (Hf a Ha). unfold same_from_ok. simpl. lia.
  - intros d Hd. apply in_app_or in Hd as [Hd | [<- | []]]; [left; auto | right; simpl; auto].
Qed.

Lemma code_shape : forall icb,
  length (codeblock_decos doc folded ln icb) <= 1 /\
  Forall (fun d => DecoSpec.from d = off + ind /\ DecoSpec.to d = DecoSpec.from d /\
                   DecoSpec.from d <= T)
    (codeblock_decos doc folded ln icb).
Proof.
  intros icb. pose proof T_eq as HT. unfold codeblock_decos. fold tr.
  destruct (negb icb && isCodeBlockToggle tr); [| simpl; auto].
  destruct (find_fence_end _ _ _); simpl; split; auto.
  repeat constructor; unfold off, ind in *; simpl; lia.
Qed.

Lemma start_shape : startsWith tr START_TAG = true ->
  length (start_decos doc selection folded ln) <= 1 /\
  Forall (fun d => DecoSpec.from d = off + ind /\ DecoSpec.to d = DecoSpec.from d + 3 /\
                   DecoSpec.to d <= T)
    (start_decos doc selection folded ln).
Proof.
  intros Hs. apply start_length in Hs. pose proof T_eq as HT. unfold start_decos.
  destruct (touches _ _ _); [simpl; auto |].
  destruct (findMatchingEndLine _ _); simpl; split; auto.
  repeat constructor; unfold off, ind in *; simpl; lia.
Qed.

Lemma end_shape : forall rs, startsWith tr END_TAG = true ->
  length (snd (end_decos selection ln rs)) <= 1 /\
  Forall (fun d => DecoSpec.from d = off + ind /\ DecoSpec.to d = DecoSpec.from d + 2 /\
                   DecoSpec.to d <= T)
    (snd (end_decos selection ln rs)).
Proof.
  intros rs He. apply end_length in He. pose proof T_eq as HT. unfold end_decos. simpl.
  destruct (negb _ && negb _); simpl; split; auto.
  repeat constructor; unfold off, ind in *; simpl; lia.
Qed.

Lemma copy_shape :
  length (copy_decos doc ln) <= 1 /\
  Forall (fun d => DecoSpec.from d = T /\ DecoSpec.to d = T) (copy_decos doc ln).
Proof.
  unfold copy_decos. destruct (findMatchingEndLine _ _); simpl; split; auto.
Qed.

(** The decorations pushed for one line are within the line and pairwise
    [same_from_ok] in push order. *)
Lemma build_line_ok : forall lvl rs icb,
  let ds := snd (build_line doc selection folded lvl rs icb ln) in
  ForallOrdPairs same_from_ok ds /\
  Forall (fun d => off <= DecoSpec.from d /\ DecoSpec.from d <= T /\ DecoSpec.to d <= T) ds.
Proof.
  intros lvl rs icb. pose proof T_eq as HT.
  destruct (background_shape lvl) as [Hbg Hbgf].
  destruct code_shape with (icb := icb) as [Hcl Hcf].
  destruct copy_shape as [Hpl Hpf].
  assert (Hbg' : Forall (fun d => off <= DecoSpec.from d /\ DecoSpec.from d <= T /\ DecoSpec.to d <= T)
                   (background_decos selection ln lvl)).
  { apply Forall_forall. intros d Hd. specialize (Hbgf d Hd). lia. }
  unfold build_line. fold tr.
  destruct (startsWith tr "```" || startsWith tr "~~~") eqn:Hf; [| destruct icb].
  - simpl. split.
    + apply FOP_app; [exact Hbg | apply FOP_small; exact Hcl |].
      intros a b Ha Hb. specialize (Hbgf a Ha). use_forall. unfold same_from_ok. lia.
    + apply Forall_app. split; [exact Hbg' |].
      apply Forall_forall. intros d Hd. use_forall. lia.
  - simpl. split; assumption.
  - destruct (startsWith tr START_TAG) eqn:Hs.
    + rewrite (start_not_end _ Hs). destruct (start_shape Hs) as [Hsl Hsf].
      simpl. split.
      * apply FOP_app; [exact Hbg | |].
        { apply FOP_app; [apply FOP_small; exact Hsl | apply FOP_small; exact Hpl |].
          intros a b Ha Hb. use_forall. unfold same_from_ok. lia. }
        intros a b Ha Hb. specialize (Hbgf a Ha). split_in; use_forall;
          unfold same_from_ok; lia.
      * apply Forall_app. split; [exact Hbg' |].
        apply Forall_forall. intros d Hd. split_in; use_forall; lia.
    + destruct (startsWith tr END_TAG) eqn:He.
      * destruct (end_shape rs He) as [Hel Hef].
        destruct (end_decos selection ln rs) as [rs2 ds2] eqn:Ee. simpl in *. split.
        -- rewrite app_nil_r. apply FOP_app; [exact Hbg | apply FOP_small; exact Hel |].
           intros a b Ha Hb. specialize (Hbgf a Ha). use_forall. unfold same_from_ok. lia.
        -- rewrite app_nil_r. apply Forall_app. split; [exact Hbg' |].
           apply Forall_forall. intros d Hd. use_forall. lia.
      * simpl. rewrite app_nil_r. split; assumption.
Qed.

End OneLine.

Lemma build_fold_ok : forall diff ts n off st,
  ForallOrdPairs same_from_ok (decos st) ->
  Forall (fun d => DecoSpec.from d < off) (decos st) ->
  ForallOrdPairs same_from_ok
    (decos (fold_left (build_step doc selection folded diff) (mk_lines n off ts) st)).
Proof.
  intros diff. induction ts as [| t ts IH]; intros n off st Hst Hlt; simpl; [exact Hst |].
  set (ln := mkLine n off (off + String.length t) t).
  assert (Hwf : line_wf ln) by reflexivity.
  unfold build_step at 2.
  destruct (build_line_ok ln Hwf (currentLevel st + nth (number ln) diff 0)%Z
              (runningStack st) (inCodeBlock st)) as [Hds Hin].
  destruct (build_line doc selection folded _ _ _ ln) as [[rs icb] ds]. simpl in Hds, Hin.
  apply IH; simpl.
  - apply FOP_app; [exact Hst | exact Hds |].
    intros a b Ha Hb. rewrite Forall_forall in Hlt, Hin.
    specialize (Hlt a Ha). specialize (Hin b Hb). unfold same_from_ok. simpl in Hin. lia.
  - apply Forall_app. split.
    + eapply Forall_impl; [| exact Hlt]. simpl. intros a Ha. lia.
    + eapply Forall_impl; [| exact Hin]. simpl. intros a Ha. lia.
Qed.

(** Order of the sorted list: [from] ascending, equal [from] ordered by
    [to] with one of the two zero-width. *)
Definition sorted_ok (a b : DecoSpec.t) : Prop :=
  DecoSpec.from a < DecoSpec.from b \/
  (DecoSpec.from a = DecoSpec.from b /\ DecoSpec.to a <= DecoSpec.to b /\
   (DecoSpec.from a = DecoSpec.to a \/ DecoSpec.from b = DecoSpec.to b)).

Lemma in_insert_by_from : forall d l x, In x (insert_by_from d l) <-> x = d \/ In x l.
Proof.
  intros d l x. induction l as [| y l IH]; simpl; [intuition (subst; auto) |].
  destruct (DecoSpec.from d <=? DecoSpec.from y); simpl; [intuition (subst; auto) |].
  rewrite IH. intuition (subst; auto).
Qed.

Lemma in_sort_by_from : forall l x, In x (sort_by_from l) <-> In x l.
Proof.
  induction l as [| d l IH]; intros x; simpl; [tauto |].
  rewrite in_insert_by_from, IH. intuition (subst; auto).
Qed.

Lemma insert_by_from_ok : forall d l,
  Forall (same_from_ok d) l -> ForallOrdPairs sorted_ok l ->
  ForallOrdPairs sorted_ok (insert_by_from d l).
Proof.
  intros d l. induction l as [| y l IH]; intros Hd Hl; simpl.
  - repeat constructor.
  - inversion Hd as [| ? ? Hdy Hdl]; subst. inversion Hl as [| ? ? Hyl Hll]; subst.
    destruct (Nat.leb_spec (DecoSpec.from d) (DecoSpec.from y)).
    + constructor; [| exact Hl]. constructor.
      * unfold sorted_ok. unfold same_from_ok in Hdy. lia.
      * rewrite Forall_forall in Hyl, Hdl |- *. intros b Hb.
        specialize (Hyl b Hb). specialize (Hdl b Hb).
        unfold sorted_ok, same_from_ok in *. lia.
    + constructor; [| apply IH; assumption].
      apply Forall_forall. intros b Hb. apply in_insert_by_from in Hb as [-> | Hb].
      * unfold sorted_ok. lia.
      * rewrite Forall_forall in Hyl. auto.
Qed.

Lemma sort_by_from_ok : forall l,
  ForallOrdPairs same_from_ok l -> ForallOrdPairs sorted_ok (sort_by_from l).
Proof.
  induction l as [| d l IH]; intros H; simpl; [constructor |].
  inversion H as [| ? ? Hd Hl]; subst. apply insert_by_from_ok.
  - rewrite Forall_forall in Hd |- *. intros b Hb. apply (proj1 (in_sort_by_from _ _)) in Hb. exact (Hd b Hb).
  - exact (IH Hl).
Qed.

End BuilderOrder.

(** C9: the list handed to the [RangeSetBuilder] is sorted by [from]
    ascending; two entries with the same [from] come with [to] ascending and
    one of them is zero-width, so they do not overlap otherwise. *)
Theorem buildDecorations_sorted : forall doc selection folded,
  ForallOrdPairs sorted_ok (buildDecorations doc selection folded).
Proof.
  intros doc selection folded. unfold buildDecorations.
  apply sort_by_from_ok. apply build_fold_ok; constructor.
Qed.

(** ** Where each decoration comes from *)

Section Origin.

Variable doc : Doc.
Variable selection : list SelRange.
Variable folded : list (nat * nat).

Lemma build_fold_in : forall diff ts n off st d,
  In d (decos (fold_left (build_step doc selection folded diff) (mk_lines n off ts) st)) ->
  In d (decos st) \/
  exists ln lvl rs icb, In ln (mk_lines n off ts) /\
    In d (snd (build_line doc selection folded lvl rs icb ln)).
Proof.
  intros diff. induction ts as [| t ts IH]; intros n off st d H; simpl in H; [left; exact H |].
  apply IH in H as [H | (ln & lvl & rs & icb & Hln & Hd)].
  - unfold build_step in H at 1.
    match type of H with
    | context [build_line ?a ?b ?c ?l ?r ?i ?x] =>
        destruct (build_line a b c l r i x) as [[rs icb] ds] eqn:E
    end.
    simpl in H. apply in_app_or in H as [H | H]; [left; exact H |].
    right. eexists _, _, _, _. split; [left; reflexivity |]. rewrite E. exact H.
  - right. exists ln, lvl, rs, icb. split; [right; exact Hln | exact Hd].
Qed.

Lemma build_in : forall d,
  In d (buildDecorations doc selection folded) ->
  exists ln lvl rs icb, In ln (doc_lines doc) /\
    In d (snd (build_line doc selection folded lvl rs icb ln)).
Proof.
  intros d H. unfold buildDecorations in H. apply (proj1 (in_sort_by_from _ _)) in H.
  apply build_fold_in in H as [[] | H]. exact H.
Qed.

(** The kind of decoration each part of the loop body pushes. *)
Lemma build_line_kinds : forall lvl rs icb ln d,
  In d (snd (build_line doc selection folded lvl rs icb ln)) ->
  (exists c, DecoSpec.deco d = DecoLine c) \/
  (DecoSpec.deco d = DecoReplace HeaderHashWidget true /\ In d (header_hash_decos selection ln)) \/
  (exists w s, DecoSpec.deco d = DecoWidget w s) \/
  (startsWith (trimStart (text ln)) START_TAG = true /\
   In d (start_decos doc selection folded ln)) \/
  (exists p, DecoSpec.deco d = DecoReplace (EndTagWidget p 0 false) true).
Proof.
  intros lvl rs icb ln d H.
  assert (Hbg : In d (background_decos selection ln lvl) ->
            (exists c, DecoSpec.deco d = DecoLine c) \/
            (DecoSpec.deco d = DecoReplace HeaderHashWidget true /\
             In d (header_hash_decos selection ln))).
  { unfold background_decos. destruct (0 <? lvl)%Z; [| simpl; tauto].
    intros Hd. apply in_app_or in Hd as [Hd | [<- | []]]; [| left; eexists; reflexivity].
    right. split; [| exact Hd]. revert Hd. unfold header_hash_decos.
    destruct (startsWith _ _); [| simpl; tauto].
    destruct (headerMatch _) as [[? ?] |]; [| simpl; tauto].
    destruct (touches _ _ _); [simpl; tauto |].
    destruct (_ <=? _); simpl; [| tauto]. intros [<- | []]. reflexivity. }
  assert (Hcode : In d (codeblock_decos doc folded ln icb) -> exists w s, DecoSpec.deco d = DecoWidget w s).
  { unfold codeblock_decos. destruct (_ && _); [| simpl; tauto].
    destruct (find_fence_end _ _ _); simpl; [| tauto]. intros [<- | []]. do 2 eexists; reflexivity. }
  assert (Hcopy : In d (copy_decos doc ln) -> exists w s, DecoSpec.deco d = DecoWidget w s).
  { unfold copy_decos. destruct (findMatchingEndLine _ _); simpl; [| tauto].
    intros [<- | []]. do 2 eexists; reflexivity. }
  assert (Hend : forall r, In d (snd (end_decos selection ln r)) ->
            exists p, DecoSpec.deco d = DecoReplace (EndTagWidget p 0 false) true).
  { intros r. unfold end_decos. simpl. destruct (_ && _); simpl; [| tauto].
    intros [<- | []]. eexists; reflexivity. }
  unfold build_line in H.
  destruct (startsWith (trimStart (text ln)) "```" || startsWith (trimStart (text ln)) "~~~").
  - simpl in H. apply in_app_or in H as [H | H]; [apply Hbg in H; tauto | apply Hcode in H; tauto].
  - destruct icb; [simpl in H; apply Hbg in H; tauto |].
    destruct (startsWith (trimStart (text ln)) START_TAG) eqn:Hs;
      destruct (startsWith (trimStart (text ln)) END_TAG);
      [destruct (end_decos selection ln (S rs)) eqn:E | |
       destruct (end_decos selection ln rs) eqn:E |];
      simpl in H; split_in;
      try (apply Hbg in H; tauto); try (apply Hcopy in H; tauto); try contradiction;
      try (right; right; right; left; split; [first [reflexivity | assumption] | assumption]);
      match goal with
      | E : end_decos ?a ?b ?c = (_, ?l), H : In d ?l |- _ =>
          assert (Hx : In d (snd (end_decos a b c))) by (rewrite E; exact H);
          apply Hend in Hx; tauto
      end.
Qed.

End Origin.

(** ** Line offsets and [findMatchingEndLine] *)

Lemma mk_lines_length : forall ts n off, length (mk_lines n off ts) = length ts.
Proof. induction ts as [| t ts IH]; intros n off; simpl; [reflexivity | rewrite IH; reflexivity]. Qed.

Lemma mk_lines_nth : forall ts n off a, a < length ts ->
  number (nth a (mk_lines n off ts) default_line) = n + a /\
  text (nth a (mk_lines n off ts) default_line) = nth a ts "" /\
  line_wf (nth a (mk_lines n off ts) default_line).
Proof.
  induction ts as [| t ts IH]; intros n off a Ha; simpl in Ha; [lia |].
  destruct a as [| a]; simpl.
  - split; [lia | split; reflexivity].
  - destruct (IH (S n) (off + String.length t + 1) a) as (H1 & H2 & H3); [lia |].
    split; [lia | split; [exact H2 | exact H3]].
Qed.

Lemma mk_lines_from_first : forall ts n off a, a < length ts ->
  off <= from (nth a (mk_lines n off ts) default_line).
Proof.
  intros ts n off a Ha. apply (mk_lines_from_ge ts n off). apply nth_In.
  rewrite mk_lines_length. exact Ha.
Qed.

Lemma mk_lines_order : forall ts n off a b, a < b < length ts ->
  to (nth a (mk_lines n off ts) default_line) < from (nth b (mk_lines n off ts) default_line).
Proof.
  induction ts as [| t ts IH]; intros n off a b Hab; simpl in Hab; [lia |].
  destruct a as [| a], b as [| b]; try lia; simpl.
  - pose proof (mk_lines_from_first ts (S n) (off + String.length t + 1) b). lia.
  - apply IH. lia.
Qed.

Lemma doc_line_in : forall doc ln, In ln (doc_lines doc) ->
  doc_line doc (number ln) = ln /\ 1 <= number ln <= length doc.
Proof.
  intros doc ln H. apply In_nth with (d := default_line) in H as (a & Ha & <-).
  unfold doc_lines in *. rewrite mk_lines_length in Ha.
  destruct (mk_lines_nth doc 1 0 a Ha) as (Hn & _ & _). rewrite Hn.
  unfold doc_line, doc_lines. replace (1 + a - 1) with a by lia. split; [reflexivity | lia].
Qed.

Lemma doc_line_text : forall doc k, 1 <= k <= length doc ->
  text (doc_line doc k) = nth (k - 1) doc "" /\ line_wf (doc_line doc k).
Proof.
  intros doc k Hk. unfold doc_line, doc_lines.
  destruct (mk_lines_nth doc 1 0 (k - 1)) as (_ & H2 & H3); [lia |]. auto.
Qed.

Lemma doc_line_order : forall doc j k, 1 <= j < k -> k <= length doc ->
  to (doc_line doc j) < from (doc_line doc k).
Proof.
  intros doc j k Hjk Hk. unfold doc_line, doc_lines. apply mk_lines_order. lia.
Qed.

Lemma fme_loop_some : forall ts i stack e, fme_loop i ts stack = Some e ->
  i <= e < i + length ts /\ startsWith (trimStart (nth (e - i) ts "")) END_TAG = true.
Proof.
  induction ts as [| t ts IH]; intros i stack e H; simpl in H; [discriminate |].
  destruct (startsWith (trimStart t) START_TAG) eqn:Hs.
  - apply IH in H as [H1 H2]. simpl. split; [lia |].
    replace (e - i) with (S (e - S i)) by lia. exact H2.
  - destruct (startsWith (trimStart t) END_TAG) eqn:He.
    + destruct (Nat.eqb (stack - 1) 0).
      * injection H as <-. simpl. rewrite Nat.sub_diag. split; [lia | exact He].
      * apply IH in H as [H1 H2]. simpl. split; [lia |].
        replace (e - i) with (S (e - S i)) by lia. exact H2.
    + apply IH in H as [H1 H2]. simpl. split; [lia |].
      replace (e - i) with (S (e - S i)) by lia. exact H2.
Qed.

Lemma findMatchingEndLine_some : forall doc s e, findMatchingEndLine doc s = Some e ->
  s < e <= length doc /\ startsWith (trimStart (nth (e - 1) doc "")) END_TAG = true.
Proof.
  intros doc s e H. unfold findMatchingEndLine in H. apply fme_loop_some in H as [H1 H2].
  rewrite length_skipn in H1. rewrite nth_skipn in H2. split; [lia |].
  replace (e - 1) with (s + (e - S s)) by lia. exact H2.
Qed.

Lemma start_range : forall doc selection folded ln d,
  In d (start_decos doc selection folded ln) ->
  DecoSpec.from d = from ln + indentLen (text ln) /\
  DecoSpec.to d = DecoSpec.from d + String.length START_TAG.
Proof.
  intros doc selection folded ln d. unfold start_decos.
  destruct (touches _ _ _); [simpl; tauto |].
  destruct (findMatchingEndLine _ _); simpl; [| tauto].
  intros [<- | []]. split; reflexivity.
Qed.

Lemma marker_in_line : forall ln tag, line_wf ln ->
  startsWith (trimStart (text ln)) tag = true ->
  from ln + indentLen (text ln) + String.length tag <= to ln.
Proof.
  intros ln tag Hw H. apply prefix_length in H. pose proof (trimStart_length (text ln)).
  unfold line_wf in Hw. unfold indentLen. lia.
Qed.

(** C3 (amended): every toggle triangle bound to a fold (the widget that
    replaces the [START_TAG] of a line) sits on an open line [i], over the
    three characters of its marker, and line [i]'s matching close line [e]
    was found by stack counting; its fold range is [(to i, to e)], so every
    line after the open line up to and including the close line lies inside
    the folded range: the open line stays visible, the close line's text is
    hidden with the body. *)
Theorem triangle_fold_range : forall doc selection folded d isF fs fe isH inc,
  In d (buildDecorations doc selection folded) ->
  DecoSpec.deco d = DecoReplace (ToggleWidget isF fs fe isH) inc ->
  exists i e,
    1 <= i < e /\ e <= length doc /\
    startsWith (trimStart (text (doc_line doc i))) START_TAG = true /\
    findMatchingEndLine doc i = Some e /\
    startsWith (trimStart (text (doc_line doc e))) END_TAG = true /\
    DecoSpec.from d = from (doc_line doc i) + indentLen (text (doc_line doc i)) /\
    DecoSpec.to d = DecoSpec.from d + String.length START_TAG /\
    DecoSpec.to d <= to (doc_line doc i) /\
    fs = to (doc_line doc i) /\ fe = to (doc_line doc e) /\
    (forall k, i < k <= e -> fs < from (doc_line doc k) /\ to (doc_line doc k) <= fe).
Proof.
  intros doc selection folded d isF fs fe isH inc H Hdeco.
  destruct (build_in _ _ _ _ H) as (ln & lvl & rs & icb & Hin & Hd).
  destruct (build_line_kinds _ _ _ _ _ _ _ _ Hd)
    as [[c Hc] | [[Hc _] | [[w [s Hc]] | [[Hst Hs] | [p Hc]]]]]; try congruence.
  unfold start_decos in Hs.
  destruct (start_range _ _ _ _ _ Hs) as [Hfrom Hto].
  pose proof (marker_in_line ln START_TAG (mk_lines_wf _ _ _ _ Hin) Hst) as Hml.
  destruct (touches _ _ _); [contradiction |].
  destruct (findMatchingEndLine doc (number ln)) as [e |] eqn:Hf; [| contradiction].
  destruct Hs as [<- | []]. simpl in Hdeco. injection Hdeco as _ <- <- _ _.
  destruct (doc_line_in _ _ Hin) as [Hdl Hr].
  destruct (findMatchingEndLine_some _ _ _ Hf) as [He Hend].
  destruct (doc_line_text doc e) as [Hte Hwe]; [lia |].
  exists (number ln), e. rewrite Hdl.
  split; [lia | split; [lia | split; [exact Hst | split; [exact Hf |]]]].
  split; [rewrite Hte; exact Hend |].
  split; [exact Hfrom | split; [exact Hto | split; [lia |]]].
  split; [reflexivity | split; [reflexivity |]].
  intros k Hk. split.
  - rewrite <- Hdl at 1. apply doc_line_order; lia.
  - destruct (Nat.eq_dec k e) as [-> | Hne]; [lia |].
    destruct (doc_line_text doc k) as [_ Hwk]; [lia |].
    pose proof (doc_line_order doc k e). unfold line_wf in Hwe. lia.
Qed.

Lemma triangle_fold_range_witness :
  In (DecoSpec.mk 0 3 (DecoReplace (ToggleWidget false 4 9 false) true))
     (buildDecorations ["|> A"; "B"; "<|"] [(6, 6)] []) /\
  exists i e, findMatchingEndLine ["|> A"; "B"; "<|"] i = Some e /\
    4 = to (doc_line ["|> A"; "B"; "<|"] i) /\ 9 = to (doc_line ["|> A"; "B"; "<|"] e).
Proof.
  assert (H : In (DecoSpec.mk 0 3 (DecoReplace (ToggleWidget false 4 9 false) true))
     (buildDecorations ["|> A"; "B"; "<|"] [(6, 6)] [])) by (vm_compute; auto 10).
  split; [exact H |].
  destruct (triangle_fold_range _ _ _ _ _ _ _ _ _ H eq_refl)
    as (i & e & _ & _ & _ & Hf & _ & _ & _ & _ & Hs & He & _).
  exists i, e. split; [exact Hf | split; [exact Hs | exact He]].
Defined.

(** C3 counterexample: on ["|> A"; "B"; "<|"] the triangle's fold range is
    [(4, 9)], which contains the whole text [7, 9) of the close line 3:
    the close tag line is folded away with the body, not kept visible. *)
Lemma triangle_fold_range_counterexample :
  In (DecoSpec.mk 0 3 (DecoReplace (ToggleWidget false 4 9 false) true))
     (buildDecorations ["|> A"; "B"; "<|"] [(6, 6)] []) /\
  findMatchingEndLine ["|> A"; "B"; "<|"] 1 = Some 3 /\
  4 = to (doc_line ["|> A"; "B"; "<|"] 1) /\ 9 = to (doc_line ["|> A"; "B"; "<|"] 3) /\
  4 <= from (doc_line ["|> A"; "B"; "<|"] 3) /\
  from (doc_line ["|> A"; "B"; "<|"] 3) < to (doc_line ["|> A"; "B"; "<|"] 3) /\
  to (doc_line ["|> A"; "B"; "<|"] 3) <= 9.
Proof. vm_compute. split; [auto 10 | repeat split; lia]. Qed.

(** C10: a hash-hiding replacement lies within the title line it targets:
    it is pushed only for a line whose trimmed text starts with [START_TAG],
    starts at or after that line's start, is not empty, and ends at or
    before the line's end. *)
Theorem header_hash_within_line : forall doc selection folded d inc,
  In d (buildDecorations doc selection folded) ->
  DecoSpec.deco d = DecoReplace HeaderHashWidget inc ->
  exists ln, In ln (doc_lines doc) /\
    startsWith (trimStart (text ln)) START_TAG = true /\
    from ln <= DecoSpec.from d < DecoSpec.to d /\ DecoSpec.to d <= to ln.
Proof.
  intros doc selection folded d inc H Hdeco.
  destruct (build_in _ _ _ _ H) as (ln & lvl & rs & icb & Hin & Hd).
  destruct (build_line_kinds _ _ _ _ _ _ _ _ Hd)
    as [[c Hc] | [[Hc Hh] | [[w [s Hc]] | [[Hst Hs] | [p Hc]]]]]; try congruence.
  - exists ln. split; [exact Hin |].
    unfold header_hash_decos in Hh.
    destruct (startsWith (trimStart (text ln)) START_TAG) eqn:Hst; [| contradiction].
    destruct (headerMatch _) as [[lv m] |] eqn:Hm; [| contradiction].
    apply headerMatch_len in Hm.
    destruct (touches _ _ _); [contradiction |].
    destruct (Nat.leb_spec (from ln + indentLen (text ln) + String.length START_TAG + 0 + m) (to ln));
      [| contradiction].
    destruct Hh as [<- | []]. cbn [DecoSpec.from DecoSpec.to]. split; [reflexivity | lia].
  - unfold start_decos in Hs.
    destruct (touches _ _ _); [contradiction |].
    destruct (findMatchingEndLine _ _); [| contradiction].
    destruct Hs as [<- | []]. discriminate Hdeco.
Qed.

Lemma header_hash_within_line_witness :
  In (DecoSpec.mk 3 5 (DecoReplace HeaderHashWidget true))
     (buildDecorations ["|> # Title"; "Body"; "<|"] [(13, 13)] []) /\
  exists ln, In ln (doc_lines ["|> # Title"; "Body"; "<|"]) /\
    from ln <= 3 < 5 /\ 5 <= to ln.
Proof.
  assert (H : In (DecoSpec.mk 3 5 (DecoReplace HeaderHashWidget true))
     (buildDecorations ["|> # Title"; "Body"; "<|"] [(13, 13)] [])) by (vm_compute; auto 20).
  split; [exact H |].
  destruct (header_hash_within_line _ _ _ _ _ H eq_refl) as (ln & Hin & _ & Hr).
  exists ln. split; [exact Hin | exact Hr].
Defined.

(** ** Heading folds *)

(** C4 (code): on ["|> T"; "# H"; "x"; "  <|"; "y"; "# Z"] the toggle of
    line 1 closes on the indented line 4 ([findMatchingEndLine] trims), and
    the specification's rule stops the scope of the heading on line 2 one
    line above it, at line 3 (offset 10).  [notionFoldService] tests the
    close tag on the untrimmed text, runs past line 4 and folds up to the
    end of line 5 (offset 17), swallowing the toggle's close tag. *)
Theorem notionFoldService_indented_close_tag :
  findMatchingEndLine ["|> T"; "# H"; "x"; "  <|"; "y"; "# Z"] 1 = Some 4 /\
  heading_scope_spec ["|> T"; "# H"; "x"; "  <|"; "y"; "# Z"] 2 = Some 3 /\
  to (doc_line ["|> T"; "# H"; "x"; "  <|"; "y"; "# Z"] 3) = 10 /\
  notionFoldService ["|> T"; "# H"; "x"; "  <|"; "y"; "# Z"] 2 = Some (8, 17) /\
  to (doc_line ["|> T"; "# H"; "x"; "  <|"; "y"; "# Z"] 5) = 17.
Proof. vm_compute. repeat split. Qed.

(** ** Fenced code and marker classification *)

(** C5 (code): on ["```"; "|> A"; "B"; "<|"; "```"] the render loop takes
    lines 2-4 as fenced code, but the scanner, which tracks no fence,
    accepts the block (2, 4): the fenced lines get depth 1 and the toggle
    background of level 1. *)
Theorem scan_ignores_fences :
  scan ["```"; "|> A"; "B"; "<|"; "```"] = [mkRange 2 4] /\
  depthByLine ["```"; "|> A"; "B"; "<|"; "```"] = [0; 1; 1; 1; 0]%Z /\
  In (DecoSpec.mk 4 4 (DecoLine "toggle-bg toggle-bg-level-1 toggle-round-top"))
     (buildDecorations ["```"; "|> A"; "B"; "<|"; "```"] [] []).
Proof. vm_compute. split; [reflexivity | split; [reflexivity | auto 10]]. Qed.

(** C8 (code): the scanner tests the markers on the untrimmed text, so
    indenting the open tag of ["|> A"; "B"; "<|"] drops its block and
    every depth. *)
Theorem scan_leading_whitespace :
  scan ["|> A"; "B"; "<|"] = [mkRange 1 3] /\
  scan ["  |> A"; "B"; "<|"] = [] /\
  depthByLine ["|> A"; "B"; "<|"] = [1; 1; 1]%Z /\
  depthByLine ["  |> A"; "B"; "<|"] = [0; 0; 0]%Z.
Proof. vm_compute. repeat split. Qed.

(** ** Orphan close tags *)

(** C7 (code): in ["  |> A"; "B"; "<|"] the scanner's stack is empty when
    the close tag of line 3 arrives (the indented open tag is not
    recognised) and it accepts no block; yet the render loop, which trims,
    replaces the close tag's characters [9, 11) by an end widget, and the
    triangle of line 1 folds [(6, 11)], which holds line 3. *)
Theorem orphan_close_rendered :
  scan ["  |> A"; "B"; "<|"] = [] /\
  fst (scan_lines 1 ["  |> A"; "B"] [] []) = [] /\
  In (DecoSpec.mk 9 11 (DecoReplace (EndTagWidget 9 0 false) true))
     (buildDecorations ["  |> A"; "B"; "<|"] [(7, 7)] []) /\
  In (DecoSpec.mk 2 5 (DecoReplace (ToggleWidget false 6 11 false) true))
     (buildDecorations ["  |> A"; "B"; "<|"] [(7, 7)] []) /\
  from (doc_line ["  |> A"; "B"; "<|"] 3) = 9.
Proof. vm_compute. split; [reflexivity | split; [reflexivity | split; [auto 10 | split; [auto 10 | reflexivity]]]]. Qed.

(** ** Fold state *)

Lemma in_set_add : forall x y s, In x (set_add y s) <-> x = y \/ In x s.
Proof.
  intros x y s. unfold set_add. destruct (existsb (Nat.eqb y) s) eqn:E.
  - apply existsb_exists in E as [z [Hz Hyz]]. apply Nat.eqb_eq in Hyz. subst z.
    split; [auto | intros [-> | H]; assumption].
  - rewrite in_app_iff. simpl. intuition.
Qed.

Lemma set_add_nodup : forall y s, NoDup s -> NoDup (set_add y s) /\ length (set_add y s) <= S (length s).
Proof.
  intros y s Hs. unfold set_add. destruct (existsb (Nat.eqb y) s) eqn:E; [split; [exact Hs | lia] |].
  split; [| rewrite length_app; simpl; lia].
  apply NoDup_app; [exact Hs | constructor; [intros [] | constructor] |].
  intros z Hz [-> | []]. assert (existsb (Nat.eqb z) s = true) by
    (apply existsb_exists; exists z; split; [exact Hz | apply Nat.eqb_refl]).
  congruence.
Qed.

Lemma remap_fold : forall (mapPos : nat -> nat) (l acc : list nat), NoDup acc ->
  (forall x, In x (fold_left (fun nv p => set_add (mapPos p) nv) l acc) <->
             In x acc \/ exists p, In p l /\ x = mapPos p) /\
  NoDup (fold_left (fun nv p => set_add (mapPos p) nv) l acc) /\
  length (fold_left (fun nv p => set_add (mapPos p) nv) l acc) <= length acc + length l.
Proof.
  intros mapPos l. induction l as [| p l IH]; intros acc Hacc; simpl.
  - split; [intros x; split; [auto | intros [H | [q [[] _]]]; exact H] | split; [exact Hacc | lia]].
  - destruct (set_add_nodup (mapPos p) acc Hacc) as [Hnd Hlen].
    destruct (IH _ Hnd) as (Hin & Hnd' & Hlen').
    split; [| split; [exact Hnd' | lia]].
    intros x. rewrite Hin, in_set_add. split.
    + intros [[-> | H] | [q [Hq ->]]]; eauto.
    + intros [H | [q [[<- | Hq] ->]]]; eauto.
Qed.

(** C6 (amended): the edit-driven remap (an update with no toggle effect)
    keeps every anchor: the new set is exactly the image of the old one
    under [mapPos], whatever the lines now hold, without duplicates, and
    not larger than the old set. *)
Theorem foldState_remap_image : forall (mapPos : nat -> nat) (value : list nat),
  (forall x, In x (foldState_update mapPos [] value) <-> exists p, In p value /\ x = mapPos p) /\
  NoDup (foldState_update mapPos [] value) /\
  length (foldState_update mapPos [] value) <= length value.
Proof.
  intros mapPos value. unfold foldState_update, remap. simpl.
  destruct (remap_fold mapPos value [] (NoDup_nil _)) as (Hin & Hnd & Hlen).
  split; [| split; [exact Hnd | simpl in Hlen; exact Hlen]].
  intros x. rewrite Hin. split; [intros [[] | H]; exact H | auto].
Qed.

(** C6 counterexample: the anchor 0 of ["|> A"] survives the deletion of
    [[0, 3)], though line 1 of the new document ["A"], which holds
    position 0, no longer carries the open marker. *)
Lemma foldState_remap_counterexample :
  foldState_update (mapPos_delete 0 3) [] [0] = [0] /\
  from (doc_line ["A"] 1) <= 0 <= to (doc_line ["A"] 1) /\
  startsWith (trimStart (text (doc_line ["A"] 1))) START_TAG = false.
Proof. vm_compute. split; [reflexivity | split; [split; lia | reflexivity]]. Qed.

(** ** Heading folds without indented markers *)

Lemma start_not_heading : forall t, startsWith t START_TAG = true -> hashLevel t = None.
Proof.
  intros t H. unfold startsWith in H. apply prefix_cons in H as (t' & -> & _). reflexivity.
Qed.

Lemma end_not_heading : forall t, startsWith t END_TAG = true -> hashLevel t = None.
Proof.
  intros t H. unfold startsWith in H. apply prefix_cons in H as (t' & -> & _). reflexivity.
Qed.

Lemma heading_loop_spec : forall L ts i c,
  Forall (fun t => trimStart t = t) ts ->
  heading_loop L i ts c = heading_scope_spec_loop L i ts c.
Proof.
  intros L ts. induction ts as [| t ts IH]; intros i c Hts; [reflexivity |].
  inversion Hts as [| ? ? Ht Hts']; subst. simpl. rewrite Ht.
  destruct (startsWith t START_TAG) eqn:Hs.
  - rewrite (start_not_end _ Hs), (start_not_heading _ Hs). simpl. apply IH. exact Hts'.
  - destruct (startsWith t END_TAG) eqn:He.
    + rewrite (end_not_heading _ He). destruct c as [| c]; simpl; [reflexivity |].
      rewrite IH by exact Hts'. reflexivity.
    + destruct (hashLevel t) as [lv |]; simpl;
        [destruct (lv <=? L); simpl; [reflexivity |] |]; apply IH; exact Hts'.
Qed.

(** When no line after a heading line has leading whitespace, the scope
    [notionFoldService] folds is the one of the specification's rule: its
    range runs from the end of the heading line to the end of the line
    where [heading_scope_spec] stops, provided that line is below the
    heading. *)
Theorem notionFoldService_unindented : forall doc n L,
  startsWith (text (doc_line doc n)) START_TAG = false ->
  startsWith (trimStart (text (doc_line doc n))) "#" = true ->
  hashLevel (text (doc_line doc n)) = Some L ->
  Forall (fun t => trimStart t = t) (skipn n doc) ->
  notionFoldService doc n =
    match heading_scope_spec doc n with
    | Some e => if n <? e then Some (to (doc_line doc n), to (doc_line doc e)) else None
    | None => None
    end.
Proof.
  intros doc n L Hs Hh HL Hts. unfold notionFoldService, heading_scope_spec.
  rewrite Hs, Hh, HL, heading_loop_spec by exact Hts. reflexivity.
Qed.

Lemma notionFoldService_unindented_witness :
  notionFoldService ["# H"; "x"; "<|"; "y"] 1 = Some (3, 5) /\
  heading_scope_spec ["# H"; "x"; "<|"; "y"] 1 = Some 2.
Proof.
  split; [| reflexivity].
  rewrite (notionFoldService_unindented ["# H"; "x"; "<|"; "y"] 1 1);
    [reflexivity | reflexivity | reflexivity | reflexivity |].
  repeat constructor.
Defined.

(** ** The scanner and [findMatchingEndLine] *)

(** A line whose markers read the same on the trimmed and untrimmed text. *)
Definition marker_unindented (t : string) : Prop :=
  startsWith (trimStart t) START_TAG = startsWith t START_TAG /\
  startsWith (trimStart t) END_TAG = startsWith t END_TAG.

Lemma scan_lines_app : forall ts1 ts2 i st rs,
  scan_lines i (ts1 ++ ts2) st rs =
  scan_lines (i + length ts1) ts2 (fst (scan_lines i ts1 st rs)) (snd (scan_lines i ts1 st rs)).
Proof.
  induction ts1 as [| t ts1 IH]; intros ts2 i st rs; simpl; [rewrite Nat.add_0_r; reflexivity |].
  replace (i + S (length ts1)) with (S i + length ts1) by lia.
  destruct (startsWith t START_TAG); [apply IH |].
  destruct (startsWith t END_TAG); [destruct st |]; apply IH.
Qed.

(** Ranges accepted from line [i] on start at a line already on the stack
    or at an open line read from [i] on; the same for the final stack. *)
Lemma scan_lines_new : forall ts i st rs,
  (exists R, snd (scan_lines i ts st rs) = (rs ++ R)%list /\
    forall r, In r R -> In (start r) st \/
      (i <= start r /\ startsWith (nth (start r - i) ts "") START_TAG = true)) /\
  (forall p, In p (fst (scan_lines i ts st rs)) -> In p st \/
      (i <= p /\ startsWith (nth (p - i) ts "") START_TAG = true)).
Proof.
  induction ts as [| t ts IH]; intros i st rs; cbn [scan_lines].
  - split; [exists []; split; [rewrite app_nil_r; reflexivity | intros r []] | auto].
  - assert (Hshift : forall q, S i <= q -> nth (q - i) (t :: ts) "" = nth (q - S i) ts "")
      by (intros q Hq; replace (q - i) with (S (q - S i)) by lia; reflexivity).
    destruct (startsWith t START_TAG) eqn:Hs.
    + destruct (IH (S i) (i :: st) rs) as [[R [HR HRs]] Hp]. split.
      * exists R. split; [exact HR |]. intros r Hr.
        destruct (HRs r Hr) as [[<- | H] | [H1 H2]]; [right | left; exact H | right].
        -- rewrite Nat.sub_diag. split; [lia | exact Hs].
        -- rewrite Hshift by lia. split; [lia | exact H2].
      * intros q Hq. destruct (Hp q Hq) as [[<- | H] | [H1 H2]]; [right | left; exact H | right].
        -- rewrite Nat.sub_diag. split; [lia | exact Hs].
        -- rewrite Hshift by lia. split; [lia | exact H2].
    + destruct (startsWith t END_TAG); [destruct st as [| s st] |].
      * destruct (IH (S i) [] rs) as [[R [HR HRs]] Hp]. split.
        -- exists R. split; [exact HR |]. intros r Hr.
           destruct (HRs r Hr) as [[] | [H1 H2]]. right. rewrite Hshift by lia. split; [lia | exact H2].
        -- intros q Hq. destruct (Hp q Hq) as [[] | [H1 H2]]. right. rewrite Hshift by lia. split; [lia | exact H2].
      * destruct (IH (S i) st (rs ++ [mkRange s i])%list) as [[R [HR HRs]] Hp]. split.
        -- exists (mkRange s i :: R). split; [rewrite HR; simpl; rewrite <- app_assoc; reflexivity |].
           intros r [<- | Hr]; [left; left; reflexivity |].
           destruct (HRs r Hr) as [H | [H1 H2]]; [left; right; exact H |].
           right. rewrite Hshift by lia. split; [lia | exact H2].
        -- intros q Hq. destruct (Hp q Hq) as [H | [H1 H2]]; [left; right; exact H |].
           right. rewrite Hshift by lia. split; [lia | exact H2].
      * destruct (IH (S i) st rs) as [[R [HR HRs]] Hp]. split.
        -- exists R. split; [exact HR |]. intros r Hr.
           destruct (HRs r Hr) as [H | [H1 H2]]; [left; exact H |].
           right. rewrite Hshift by lia. split; [lia | exact H2].
        -- intros q Hq. destruct (Hp q Hq) as [H | [H1 H2]]; [left; exact H |].
           right. rewrite Hshift by lia. split; [lia | exact H2].
Qed.

(** With [n - 1] lines [p] pushed above [x], the forward count of
    [findMatchingEndLine] from line [i] closes exactly where the scanner
    pops [x]; when the count never closes, [x] is never popped. *)
Lemma scan_fme : forall ts i n p x st rs,
  length p + 1 = n -> Forall (fun y => x < y) p -> x < i ->
  Forall marker_unindented ts ->
  match fme_loop i ts n with
  | Some e => exists R,
      scan_lines i ts (p ++ x :: st) rs =
        scan_lines (S e) (skipn (S e - i) ts) st (rs ++ R ++ [mkRange x e])%list /\
      Forall (fun r => x < start r) R
  | None => exists st' R,
      scan_lines i ts (p ++ x :: st) rs = (st' ++ x :: st, rs ++ R)%list /\
      Forall (fun r => x < start r) R
  end.
Proof.
  induction ts as [| t ts IH]; intros i n p x st rs Hn Hp Hx Hts.
  - exists p, []. rewrite app_nil_r. split; [reflexivity | constructor].
  - inversion Hts as [| ? ? [HS HE] Hts']; subst.
    cbn [fme_loop scan_lines]. rewrite HS, HE.
    destruct (startsWith t START_TAG) eqn:Hs.
    + specialize (IH (S i) (S (length p + 1)) (i :: p) x st rs).
      destruct (fme_loop (S i) ts (S (length p + 1))) as [e |] eqn:Hf.
      * apply fme_loop_some in Hf as [He _].
        destruct IH as [R [HR HRs]]; [simpl; lia | constructor; [lia | exact Hp] | lia | exact Hts' |].
        exists R. split; [| exact HRs]. cbn [app] in HR. rewrite HR.
        replace (S e - i) with (S (S e - S i)) by lia. reflexivity.
      * destruct IH as (st' & R & HR & HRs); [simpl; lia | constructor; [lia | exact Hp] | lia | exact Hts' |].
        exists st', R. cbn [app] in HR. split; [exact HR | exact HRs].
    + destruct (startsWith t END_TAG) eqn:He.
      * destruct p as [| y p].
        -- exists []. split; [| constructor].
           replace (S i - i) with 1 by lia. reflexivity.
        -- inversion Hp as [| ? ? Hy Hp']; subst.
           cbn [length]. replace (S (length p) + 1 - 1) with (length p + 1) by lia.
           replace (Nat.eqb (length p + 1) 0) with false by (symmetry; apply Nat.eqb_neq; lia).
           cbn [app].
           specialize (IH (S i) (length p + 1) p x st (rs ++ [mkRange y i])%list).
           destruct (fme_loop (S i) ts (length p + 1)) as [e |] eqn:Hf.
           ++ apply fme_loop_some in Hf as [Hle _].
              destruct IH as [R [HR HRs]]; [reflexivity | exact Hp' | lia | exact Hts' |].
              exists (mkRange y i :: R). split; [| constructor; [exact Hy | exact HRs]].
              rewrite HR. replace (S e - i) with (S (S e - S i)) by lia.
              rewrite <- app_assoc. reflexivity.
           ++ destruct IH as (st' & R & HR & HRs); [reflexivity | exact Hp' | lia | exact Hts' |].
              exists st', (mkRange y i :: R). split; [| constructor; [exact Hy | exact HRs]].
              rewrite HR, <- app_assoc. reflexivity.
      * specialize (IH (S i) (length p + 1) p x st rs).
        destruct (fme_loop (S i) ts (length p + 1)) as [e |] eqn:Hf.
        -- apply fme_loop_some in Hf as [Hle _].
           destruct IH as [R [HR HRs]]; [reflexivity | exact Hp | lia | exact Hts' |].
           exists R. split; [| exact HRs]. rewrite HR.
           replace (S e - i) with (S (S e - S i)) by lia. reflexivity.
        -- destruct IH as (st' & R & HR & HRs); [reflexivity | exact Hp | lia | exact Hts' |].
           exists st', R. split; [exact HR | exact HRs].
Qed.

Lemma skipn_nth_cons : forall (l : list string) k, k < length l ->
  skipn k l = nth k l "" :: skipn (S k) l.
Proof.
  induction l as [| a l IH]; intros k Hk; simpl in Hk; [lia |].
  destruct k as [| k]; [reflexivity |]. simpl. apply IH. lia.
Qed.

Lemma scan_agrees_fme : forall doc,
  Forall marker_unindented doc ->
  forall s e, In (mkRange s e) (scan doc) <->
    (1 <= s <= length doc /\ startsWith (nth (s - 1) doc "") START_TAG = true /\
     findMatchingEndLine doc s = Some e).
Proof.
  intros doc Hdoc s e.
  destruct (le_lt_dec 1 s) as [Hs1 | Hs1]; [destruct (le_lt_dec s (length doc)) as [Hs2 | Hs2] |];
    [| destruct (scan_inv_doc doc) as (_ & _ & H3 & _);
       split; [intros H; specialize (H3 _ H); simpl in H3; lia | lia] ..].
  assert (Hdec : doc = (firstn (s - 1) doc ++ nth (s - 1) doc "" :: skipn s doc)%list).
  { replace (skipn s doc) with (skipn (S (s - 1)) doc) by (f_equal; lia).
    rewrite <- (skipn_nth_cons doc (s - 1)) by lia. symmetry. apply firstn_skipn. }
  set (t := nth (s - 1) doc "") in *.
  set (pre := firstn (s - 1) doc) in *. set (rest := skipn s doc) in *.
  assert (Hpre : length pre = s - 1) by (unfold pre; rewrite length_firstn; lia).
  assert (Hrest : Forall marker_unindented rest).
  { rewrite Hdec in Hdoc. apply Forall_app in Hdoc as [_ H]. inversion H; assumption. }
  unfold scan, findMatchingEndLine. fold rest. rewrite Hdec at 1. rewrite scan_lines_app.
  rewrite Hpre. replace (1 + (s - 1)) with s by lia.
  pose proof (scan_lines_inv pre 1 [] [] (le_n 1) scan_inv_init) as Hinv.
  destruct (scan_lines 1 pre [] []) as [st1 rs1]. cbn [fst snd]. rewrite Hpre in Hinv.
  replace (1 + (s - 1)) with s in Hinv by lia.
  destruct Hinv as (Hst1 & _ & Hrs1 & _ & _).
  destruct (startsWith t START_TAG) eqn:Ht.
  - cbn [scan_lines]. rewrite Ht.
    pose proof (scan_fme rest (S s) 1 [] s st1 rs1 eq_refl (Forall_nil _) (le_n _) Hrest) as Hf.
    destruct (fme_loop (S s) rest 1) as [e0 |] eqn:Hfe.
    + apply fme_loop_some in Hfe as [He0 _].
      destruct Hf as [R [HR HRs]]. cbn [app] in HR. rewrite HR.
      destruct (scan_lines_new (skipn (S e0 - S s) rest) (S e0) st1 (rs1 ++ R ++ [mkRange s e0])%list)
        as [[R2 [HR2 HR2s]] _].
      rewrite HR2. split.
      * intros H. rewrite !in_app_iff in H.
        destruct H as [[H | [H | [H | []]]] | H].
        -- specialize (Hrs1 _ H). simpl in Hrs1. lia.
        -- rewrite Forall_forall in HRs. specialize (HRs _ H). simpl in HRs. lia.
        -- injection H as ->. split; [lia | split; reflexivity].
        -- destruct (HR2s _ H) as [Hin | [Hle _]]; simpl in *;
             [specialize (Hst1 _ Hin) |]; lia.
      * intros (_ & _ & He). injection He as <-.
        rewrite !in_app_iff. left. right. right. left. reflexivity.
    + destruct Hf as (st' & R & HR & HRs). cbn [app] in HR. rewrite HR. cbn [snd]. split.
      * intros H. rewrite in_app_iff in H. destruct H as [H | H].
        -- specialize (Hrs1 _ H). simpl in Hrs1. lia.
        -- rewrite Forall_forall in HRs. specialize (HRs _ H). simpl in HRs. lia.
      * intros (_ & _ & He). discriminate He.
  - destruct (scan_lines_new (t :: rest) s st1 rs1) as [[R [HR HRs]] _].
    rewrite HR. split.
    + intros H. rewrite in_app_iff in H. destruct H as [H | H].
      * specialize (Hrs1 _ H). simpl in Hrs1. lia.
      * destruct (HRs _ H) as [Hin | [_ Hnth]]; simpl in *.
        -- specialize (Hst1 _ Hin). lia.
        -- rewrite Nat.sub_diag in Hnth. simpl in Hnth. congruence.
    + intros (_ & Hst & _). congruence.
Qed.

(** When no marker line is indented, the blocks the scanner accepts are
    exactly the pairs the triangle and copy widgets use: [(s, e)] is a
    block if and only if line [s] is an open line and
    [findMatchingEndLine] pairs it with line [e]. *)
Theorem scan_agrees_findMatchingEndLine : forall doc,
  Forall marker_unindented doc ->
  forall s e, In (mkRange s e) (scan doc) <->
    (1 <= s <= length doc /\ startsWith (nth (s - 1) doc "") START_TAG = true /\
     findMatchingEndLine doc s = Some e).
Proof. exact scan_agrees_fme. Qed.

Lemma scan_agrees_findMatchingEndLine_witness :
  In (mkRange 2 4) (scan ["|> A"; "|> B"; "X"; "<|"; "<|"]) /\
  findMatchingEndLine ["|> A"; "|> B"; "X"; "<|"; "<|"] 2 = Some 4.
Proof.
  split; [vm_compute; auto 10 |].
  apply (scan_agrees_findMatchingEndLine ["|> A"; "|> B"; "X"; "<|"; "<|"]);
    [repeat constructor | vm_compute; auto 10].
Defined.

(** ** The parts of the loop body *)

Section Parts.

Variable doc : Doc.
Variable selection : list SelRange.
Variable folded : list (nat * nat).

Lemma build_line_parts : forall lvl rs icb ln d,
  In d (snd (build_line doc selection folded lvl rs icb ln)) ->
  In d (background_decos selection ln lvl) \/ In d (codeblock_decos doc folded ln icb) \/
  (startsWith (trimStart (text ln)) START_TAG = true /\ In d (start_decos doc selection folded ln)) \/
  (exists r, startsWith (trimStart (text ln)) END_TAG = true /\
             In d (snd (end_decos selection ln r))) \/ In d (copy_decos doc ln).
Proof.
  intros lvl rs icb ln d H. unfold build_line in H.
  destruct (_ || _).
  - simpl in H. apply in_app_or in H. tauto.
  - destruct icb; [simpl in H; tauto |].
    destruct (startsWith (trimStart (text ln)) START_TAG) eqn:Hs;
      destruct (startsWith (trimStart (text ln)) END_TAG) eqn:He;
      [destruct (end_decos selection ln (S rs)) as [r2 l2] eqn:E | |
       destruct (end_decos selection ln rs) as [r2 l2] eqn:E |];
      simpl in H; split_in; try tauto; try solve [inversion H];
      match goal with
      | E : end_decos _ _ ?r = (_, ?l), H : In d ?l |- _ =>
          right; right; right; left; exists r; rewrite E; split; [reflexivity | exact H]
      end.
Qed.

Lemma background_kind : forall ln lvl d, In d (background_decos selection ln lvl) ->
  (exists c, DecoSpec.deco d = DecoLine c) \/ In d (header_hash_decos selection ln).
Proof.
  intros ln lvl d. unfold background_decos. destruct (0 <? lvl)%Z; [| simpl; tauto].
  intros Hd. apply in_app_or in Hd as [Hd | [<- | []]]; [right; exact Hd | left; eexists; reflexivity].
Qed.

Lemma header_hash_kind : forall ln d, In d (header_hash_decos selection ln) ->
  DecoSpec.deco d = DecoReplace HeaderHashWidget true /\
  startsWith (trimStart (text ln)) START_TAG = true /\
  from ln <= DecoSpec.from d /\ DecoSpec.to d <= to ln.
Proof.
  intros ln d. unfold header_hash_decos.
  destruct (startsWith _ _) eqn:Hs; [| simpl; tauto].
  destruct (headerMatch _) as [[? m] |]; [| simpl; tauto].
  destruct (touches _ _ _); [simpl; tauto |].
  destruct (Nat.leb_spec (from ln + indentLen (text ln) + String.length START_TAG + 0 + m) (to ln));
    [| simpl; tauto].
  intros [<- | []]. cbn [DecoSpec.deco DecoSpec.from DecoSpec.to].
  split; [reflexivity | split; [reflexivity | lia]].
Qed.

Lemma codeblock_kind : forall ln icb d, In d (codeblock_decos doc folded ln icb) ->
  exists a b c, DecoSpec.deco d = DecoWidget (ToggleWidget a b c false) (-1).
Proof.
  intros ln icb d. unfold codeblock_decos. destruct (_ && _); [| simpl; tauto].
  destruct (find_fence_end _ _ _); simpl; [| tauto]. intros [<- | []]. do 3 eexists; reflexivity.
Qed.

Lemma start_kind : forall ln d, In d (start_decos doc selection folded ln) ->
  (exists a b c h, DecoSpec.deco d = DecoReplace (ToggleWidget a b c h) true) /\
  from ln <= DecoSpec.from d.
Proof.
  intros ln d. unfold start_decos.
  destruct (touches _ _ _); [simpl; tauto |].
  destruct (findMatchingEndLine _ _); simpl; [| tauto].
  intros [<- | []]. split; [do 4 eexists; reflexivity | simpl; lia].
Qed.

Lemma end_kind : forall ln r d, In d (snd (end_decos selection ln r)) ->
  DecoSpec.deco d = DecoReplace (EndTagWidget (DecoSpec.from d) 0 false) true /\
  DecoSpec.from d = from ln + indentLen (text ln) /\
  DecoSpec.to d = DecoSpec.from d + String.length END_TAG /\
  touches selection (DecoSpec.from d) (DecoSpec.to d) = false.
Proof.
  intros ln r d. unfold end_decos. cbn [snd].
  destruct (touches _ _ _) eqn:Ht; simpl; [tauto |].
  destruct (Nat.eqb r 0); simpl; [tauto |].
  intros [<- | []]. simpl. split; [reflexivity | split; [reflexivity | split; [reflexivity | exact Ht]]].
Qed.

Lemma copy_kind : forall ln d, In d (copy_decos doc ln) ->
  exists e, DecoSpec.deco d = DecoWidget (CopyWidget (number ln) e) 1 /\
    findMatchingEndLine doc (number ln) = Some e.
Proof.
  intros ln d. unfold copy_decos.
  destruct (findMatchingEndLine _ _) as [e |]; simpl; [| tauto].
  intros [<- | []]. exists e. split; reflexivity.
Qed.

End Parts.

(** ** The copy button *)

Lemma substring_app_r : forall A B i m,
  substring (String.length A + i) m (A ++ B) = substring i m B.
Proof. induction A as [| c A IH]; intros B i m; [reflexivity | apply IH]. Qed.

Lemma substring_app_l : forall A B m,
  substring 0 (String.length A + m) (A ++ B) = (A ++ substring 0 m B)%string.
Proof.
  induction A as [| c A IH]; intros B m; [reflexivity |].
  simpl. rewrite IH. reflexivity.
Qed.

Lemma append_empty_r : forall A, (A ++ "")%string = A.
Proof. induction A as [| c A IH]; [reflexivity | simpl; rewrite IH; reflexivity]. Qed.

Lemma substring_all : forall A B, substring 0 (String.length A) (A ++ B) = A.
Proof.
  intros A B. rewrite <- (Nat.add_0_r (String.length A)), substring_app_l.
  destruct B; apply append_empty_r.
Qed.

Lemma concat_cons : forall t ts, ts <> [] ->
  String.concat LF (t :: ts) = (t ++ LF ++ String.concat LF ts)%string.
Proof. intros t [| u ts] H; [congruence | reflexivity]. Qed.

Lemma mk_lines_to_ge : forall ts n off j, j < length ts ->
  off <= to (nth j (mk_lines n off ts) default_line).
Proof.
  intros ts n off j Hj. pose proof (mk_lines_from_first ts n off j Hj).
  destruct (mk_lines_nth ts n off j Hj) as (_ & _ & Hw). unfold line_wf in Hw. lia.
Qed.

(** The text between the start of line [k] and the end of line [j] is
    those lines joined by line breaks. *)
Lemma substring_LF_0 : forall m C, substring 0 (S m) (LF ++ C) = (LF ++ substring 0 m C)%string.
Proof. reflexivity. Qed.

Lemma substring_LF_S : forall i m C, substring (S i) m (LF ++ C) = substring i m C.
Proof. reflexivity. Qed.

Lemma mk_lines_from_0 : forall ts n off, ts <> [] ->
  from (nth 0 (mk_lines n off ts) default_line) = off.
Proof. intros [| t ts] n off H; [congruence | reflexivity]. Qed.

(** The text between the start of line [k] and the end of line [j] is
    those lines joined by line breaks. *)
Lemma slice_lines : forall ts n off k j, k <= j < length ts ->
  substring (from (nth k (mk_lines n off ts) default_line) - off)
    (to (nth j (mk_lines n off ts) default_line) - from (nth k (mk_lines n off ts) default_line))
    (String.concat LF ts) =
  String.concat LF (firstn (j - k + 1) (skipn k ts)).
Proof.
  induction ts as [| t ts IH]; intros n off k j Hkj; simpl in Hkj; [lia |].
  assert (Hsplit : ts <> [] -> String.concat LF (t :: ts) = (t ++ LF ++ String.concat LF ts)%string)
    by apply concat_cons.
  destruct k as [| k], j as [| j]; try lia.
  - cbn [nth mk_lines from to]. rewrite Nat.sub_diag.
    replace (off + String.length t - off) with (String.length t) by lia.
    rewrite skipn_0. change (0 - 0 + 1) with 1. cbn [firstn].
    destruct ts as [| u ts].
    + cbn [String.concat]. rewrite <- (append_empty_r t) at 2. apply substring_all.
    + rewrite Hsplit by discriminate. apply substring_all.
  - cbn [nth mk_lines from]. rewrite Nat.sub_diag.
    set (off' := off + String.length t + 1).
    set (Tj := to (nth j (mk_lines (S n) off' ts) default_line)).
    assert (Hne : ts <> []) by (destruct ts; [simpl in Hkj; lia | discriminate]).
    pose proof (IH (S n) off' 0 j ltac:(lia)) as IH0.
    rewrite (mk_lines_from_0 ts (S n) off' Hne), Nat.sub_diag in IH0. fold Tj in IH0.
    assert (Hge : off' <= Tj) by (apply mk_lines_to_ge; lia).
    rewrite Hsplit by exact Hne.
    replace (Tj - off) with (String.length t + S (Tj - off')) by (unfold off' in *; lia).
    rewrite substring_app_l, substring_LF_0, IH0, !skipn_0.
    replace (S j - 0 + 1) with (S (j + 1)) by lia. replace (j - 0 + 1) with (j + 1) by lia.
    rewrite firstn_cons, concat_cons; [reflexivity |].
    destruct ts; [congruence |]. rewrite Nat.add_1_r. discriminate.
  - cbn [nth mk_lines].
    set (off' := off + String.length t + 1).
    set (L := mk_lines (S n) off' ts).
    assert (Hne : ts <> []) by (destruct ts; [simpl in Hkj; lia | discriminate]).
    assert (Hge : off' <= from (nth k L default_line)) by (apply mk_lines_from_first; lia).
    rewrite Hsplit by exact Hne.
    replace (from (nth k L default_line) - off)
      with (String.length t + S (from (nth k L default_line) - off')) by (unfold off' in *; lia).
    rewrite substring_app_r, substring_LF_S.
    pose proof (IH (S n) off' k j ltac:(lia)) as IH1. fold L in IH1.
    rewrite IH1. replace (S j - S k) with (j - k) by lia. reflexivity.
Qed.

(** The copy button of a toggle copies exactly its body: the lines
    strictly between the open line and its matching close line, joined by
    line breaks (nothing when the body is empty). *)
Theorem copy_widget_copies_body : forall doc selection folded d s e side,
  In d (buildDecorations doc selection folded) ->
  DecoSpec.deco d = DecoWidget (CopyWidget s e) side ->
  copy_text doc s e = doc_string (firstn (e - s - 1) (skipn s doc)).
Proof.
  intros doc selection folded d s e side H Hd.
  destruct (build_in _ _ _ _ H) as (ln & lvl & rs & icb & Hin & Hb).
  destruct (build_line_parts _ _ _ _ _ _ _ _ Hb) as [Hp | [Hp | [[_ Hp] | [[r [_ Hp]] | Hp]]]].
  - apply background_kind in Hp as [[c Hc] | Hp]; [congruence |].
    apply header_hash_kind in Hp as [Hc _]. congruence.
  - apply codeblock_kind in Hp as (a & b & c & Hc). congruence.
  - apply start_kind in Hp as [(a & b & c & h & Hc) _]. congruence.
  - apply end_kind in Hp as [Hc _]. congruence.
  - apply copy_kind in Hp as (e' & Hc & Hf). rewrite Hd in Hc. injection Hc as Hs1 He1 _. subst e'.
    destruct (doc_line_in _ _ Hin) as [_ Hr]. rewrite <- Hs1 in Hf, Hr.
    destruct (findMatchingEndLine_some _ _ _ Hf) as [Hse _].
    unfold copy_text.
    destruct (Nat.leb_spec e (s + 1)).
    + replace (e - s - 1) with 0 by lia. reflexivity.
    + unfold sliceString, doc_string, doc_line, doc_lines.
      replace (s + 1 - 1) with s by lia.
      pose proof (slice_lines doc 1 0 s (e - 1 - 1) ltac:(lia)) as Hs.
      rewrite Nat.sub_0_r in Hs. rewrite Hs. f_equal. f_equal. lia.
Qed.

Lemma copy_widget_copies_body_witness :
  In (DecoSpec.mk 4 4 (DecoWidget (CopyWidget 1 4) 1))
     (buildDecorations ["|> A"; "B"; "C"; "<|"] [] []) /\
  copy_text ["|> A"; "B"; "C"; "<|"] 1 4 = doc_string ["B"; "C"].
Proof.
  assert (H : In (DecoSpec.mk 4 4 (DecoWidget (CopyWidget 1 4) 1))
     (buildDecorations ["|> A"; "B"; "C"; "<|"] [] [])) by (vm_compute; auto 20).
  split; [exact H |].
  exact (copy_widget_copies_body _ _ _ _ _ _ _ H eq_refl).
Defined.

(** ** Clicking an end widget *)

Lemma doc_lines_disjoint : forall doc a b, In a (doc_lines doc) -> In b (doc_lines doc) ->
  number a < number b -> to a < from b.
Proof.
  intros doc a b Ha Hb Hab.
  destruct (doc_line_in _ _ Ha) as [Ea Ra]. destruct (doc_line_in _ _ Hb) as [Eb Rb].
  rewrite <- Ea, <- Eb. apply doc_line_order; lia.
Qed.

(** Clicking an end widget puts the cursor on the first character [p] of
    its close tag; in the decorations rebuilt for that cursor no
    replacement covers [p]: the close tag is shown as text, ready to be
    edited. *)
Theorem end_widget_click_reveals : forall doc selection folded d p inc,
  In d (buildDecorations doc selection folded) ->
  DecoSpec.deco d = DecoReplace (EndTagWidget p 0 false) inc ->
  DecoSpec.from d = p /\
  (forall d' w inc', In d' (buildDecorations doc [(p, p)] folded) ->
     DecoSpec.deco d' = DecoReplace w inc' -> ~ (DecoSpec.from d' <= p < DecoSpec.to d')).
Proof.
  intros doc selection folded d p inc H Hd.
  destruct (build_in _ _ _ _ H) as (ln0 & lvl & rs & icb & Hin0 & Hb).
  destruct (build_line_parts _ _ _ _ _ _ _ _ Hb) as [Hp | [Hp | [[_ Hp] | [[r [He0 Hp]] | Hp]]]].
  - apply background_kind in Hp as [[c Hc] | Hp]; [congruence |].
    apply header_hash_kind in Hp as [Hc _]. congruence.
  - apply codeblock_kind in Hp as (a & b & c & Hc). congruence.
  - apply start_kind in Hp as [(a & b & c & h & Hc) _]. congruence.
  - apply end_kind in Hp as (Hc & Hfrom & Hto & _). rewrite Hd in Hc.
    injection Hc as Hp _. subst p. split; [reflexivity |].
    pose proof (marker_in_line ln0 END_TAG (mk_lines_wf _ _ _ _ Hin0) He0) as Hl0.
    intros d' w inc' H' Hd' Hcov.
    destruct (build_in _ _ _ _ H') as (ln & lvl' & rs' & icb' & Hin & Hb').
    assert (Hother : startsWith (trimStart (text ln)) START_TAG = true ->
                     from ln <= DecoSpec.from d' -> DecoSpec.to d' <= to ln -> False).
    { intros Hs Hf Ht.
      destruct (lt_eq_lt_dec (number ln) (number ln0)) as [[Hlt | Heq] | Hgt].
      - pose proof (doc_lines_disjoint _ _ _ Hin Hin0 Hlt). lia.
      - destruct (doc_line_in _ _ Hin) as [E1 _]. destruct (doc_line_in _ _ Hin0) as [E2 _].
        rewrite Heq, E2 in E1. subst ln. rewrite (start_not_end _ Hs) in He0. discriminate.
      - pose proof (doc_lines_disjoint _ _ _ Hin0 Hin Hgt). lia. }
    destruct (build_line_parts _ _ _ _ _ _ _ _ Hb') as [Hq | [Hq | [[Hs Hq] | [[r' [_ Hq]] | Hq]]]].
    + apply background_kind in Hq as [[c Hc] | Hq]; [congruence |].
      apply header_hash_kind in Hq as (_ & Hs & Hf & Ht). exact (Hother Hs Hf Ht).
    + apply codeblock_kind in Hq as (a & b & c & Hc). congruence.
    + apply start_range in Hq as [Hf Ht].
      pose proof (marker_in_line ln START_TAG (mk_lines_wf _ _ _ _ Hin) Hs).
      apply (Hother Hs); lia.
    + apply end_kind in Hq as (_ & _ & _ & Ht). unfold touches in Ht. simpl in Ht.
      rewrite orb_false_r in Ht. apply andb_false_iff in Ht as [Ht | Ht];
        apply Nat.leb_gt in Ht; lia.
    + apply copy_kind in Hq as (e & Hc & _). congruence.
  - apply copy_kind in Hp as (e & Hc & _). congruence.
Qed.

Lemma end_widget_click_reveals_witness :
  In (DecoSpec.mk 7 9 (DecoReplace (EndTagWidget 7 0 false) true))
     (buildDecorations ["|> A"; "B"; "<|"] [(6, 6)] []) /\
  ~ In (DecoSpec.mk 7 9 (DecoReplace (EndTagWidget 7 0 false) true))
     (buildDecorations ["|> A"; "B"; "<|"] [(7, 7)] []).
Proof.
  assert (H : In (DecoSpec.mk 7 9 (DecoReplace (EndTagWidget 7 0 false) true))
     (buildDecorations ["|> A"; "B"; "<|"] [(6, 6)] [])) by (vm_compute; auto 20).
  split; [exact H |].
  destruct (end_widget_click_reveals _ _ _ _ _ _ H eq_refl) as [_ Hr].
  intros H'. exact (Hr _ _ _ H' eq_refl ltac:(cbn; lia)).
Defined.

(** ** The auto-close keymap *)

Lemma str_app_assoc : forall A B C : string, ((A ++ B) ++ C = A ++ B ++ C)%string.
Proof. induction A as [| c A IH]; intros B C; [reflexivity | simpl; rewrite IH; reflexivity]. Qed.

Lemma str_length_app : forall A B,
  String.length (A ++ B) = String.length A + String.length B.
Proof. induction A as [| c A IH]; intros B; [reflexivity | simpl; rewrite IH; reflexivity]. Qed.

Lemma substring_length_le : forall s n m, String.length (substring n m s) <= m.
Proof.
  induction s as [| c s IH]; intros [| n] [| m]; simpl; try lia.
  - specialize (IH 0 m). lia.
  - apply IH.
  - apply IH.
Qed.

Lemma substring_short : forall s n m,
  String.length (substring n m s) <= String.length s - n.
Proof.
  induction s as [| c s IH]; intros [| n] [| m]; simpl; try lia.
  - specialize (IH 0 m). lia.
  - apply IH.
  - apply IH.
Qed.

Lemma substring_whole : forall B, substring 0 (String.length B) B = B.
Proof.
  intros B. rewrite <- (append_empty_r B) at 2. rewrite substring_all. reflexivity.
Qed.

Lemma substring_app_rest : forall A B,
  substring (String.length A) (String.length (A ++ B) - String.length A) (A ++ B) = B.
Proof.
  intros A B. rewrite <- (Nat.add_0_r (String.length A)) at 1. rewrite substring_app_r.
  rewrite str_length_app. replace (String.length A + String.length B - String.length A)
    with (String.length B) by lia. apply substring_whole.
Qed.

Lemma split_string : forall s n, n <= String.length s ->
  exists s1 s2, s = (s1 ++ s2)%string /\ String.length s1 = n.
Proof.
  induction s as [| c s IH]; intros [| n] Hn; simpl in Hn.
  - exists "", "". split; reflexivity.
  - lia.
  - exists "", (String c s). split; reflexivity.
  - destruct (IH n) as (s1 & s2 & -> & Hl); [lia |].
    exists (String c s1), s2. split; [reflexivity | simpl; lia].
Qed.

Lemma no_LF_app : forall A B, no_LF (A ++ B) = no_LF A && no_LF B.
Proof.
  induction A as [| c A IH]; intros B; [reflexivity |].
  simpl. rewrite IH. apply andb_assoc.
Qed.

(** The text of lines each followed, or each preceded, by a line break. *)
Fixpoint with_LF (pre : list string) : string :=
  match pre with
  | [] => ""
  | p :: ps => (p ++ LF ++ with_LF ps)%string
  end.

Fixpoint lead_LF (post : list string) : string :=
  match post with
  | [] => ""
  | p :: ps => (LF ++ p ++ lead_LF ps)%string
  end.

Lemma doc_string_split : forall pre x post,
  doc_string (pre ++ x :: post)%list = (with_LF pre ++ x ++ lead_LF post)%string.
Proof.
  unfold doc_string. induction pre as [| p pre IH]; intros x post.
  - cbn [app with_LF String.append]. revert x.
    induction post as [| q post IHp]; intros x; [symmetry; apply append_empty_r |].
    rewrite concat_cons by congruence. rewrite IHp. reflexivity.
  - cbn [app with_LF]. rewrite concat_cons by (destruct pre; simpl; congruence).
    rewrite IH. rewrite !str_app_assoc. reflexivity.
Qed.

Lemma with_LF_snoc : forall pre p, with_LF (pre ++ [p])%list = (with_LF pre ++ p ++ LF)%string.
Proof.
  induction pre as [| q pre IH]; intros p; simpl.
  - try rewrite append_empty_r; reflexivity.
  - rewrite IH, !str_app_assoc. reflexivity.
Qed.

Lemma locate : forall doc pos, doc <> [] -> pos <= String.length (doc_string doc) ->
  exists pre a b post, doc = (pre ++ (a ++ b)%string :: post)%list /\
                       pos = String.length (with_LF pre) + String.length a.
Proof.
  induction doc as [| l rest IH]; intros pos Hne Hpos; [congruence |].
  destruct (Nat.le_gt_cases pos (String.length l)) as [Hle | Hgt].
  - destruct (split_string l pos Hle) as (a & b & -> & Ha).
    exists [], a, b, rest. split; [reflexivity | simpl; lia].
  - destruct rest as [| l' rest']; [unfold doc_string in Hpos; simpl in Hpos; lia |].
    unfold doc_string in Hpos. rewrite concat_cons in Hpos by congruence.
    rewrite !str_length_app in Hpos. change (String.length LF) with 1 in Hpos.
    destruct (IH (pos - String.length l - 1)) as (pre & a & b & post & Hd & Hp);
      [congruence | unfold doc_string; lia |].
    exists (l :: pre), a, b, post. split; [rewrite Hd; reflexivity |].
    cbn [with_LF]. rewrite !str_length_app. change (String.length LF) with 1. lia.
Qed.

Lemma lines_of_nonempty : forall s, lines_of s <> [].
Proof.
  destruct s as [| c s]; simpl; [congruence |].
  destruct (Ascii.eqb _ _); [congruence | destruct (lines_of s); congruence].
Qed.

Lemma lines_of_app : forall x z, no_LF x = true ->
  lines_of (x ++ z) = (x ++ hd "" (lines_of z))%string :: tl (lines_of z).
Proof.
  induction x as [| c x IH]; intros z Hx.
  - simpl. pose proof (lines_of_nonempty z). destruct (lines_of z); [congruence | reflexivity].
  - simpl in Hx. apply andb_prop in Hx as [Hc Hx]. apply negb_true_iff in Hc.
    simpl. rewrite Hc, IH by exact Hx. reflexivity.
Qed.

Lemma lines_of_app_LF : forall x z, no_LF x = true ->
  lines_of (x ++ LF ++ z) = x :: lines_of z.
Proof.
  intros x z Hx. rewrite lines_of_app by exact Hx. cbn. rewrite append_empty_r. reflexivity.
Qed.

Lemma lines_of_with_LF : forall pre z, Forall (fun l => no_LF l = true) pre ->
  lines_of (with_LF pre ++ z) = (pre ++ lines_of z)%list.
Proof.
  induction pre as [| p pre IH]; intros z Hf; [reflexivity |].
  inversion Hf as [| ? ? Hp Hr]; subst. cbn [with_LF app].
  rewrite !str_app_assoc, lines_of_app_LF by exact Hp. rewrite IH by exact Hr. reflexivity.
Qed.

Lemma lines_of_lead_LF : forall post x, no_LF x = true ->
  Forall (fun l => no_LF l = true) post -> lines_of (x ++ lead_LF post) = x :: post.
Proof.
  induction post as [| q post IH]; intros x Hx Hf.
  - rewrite append_empty_r, <- (append_empty_r x) at 1. rewrite lines_of_app by exact Hx.
    cbn. rewrite append_empty_r. reflexivity.
  - inversion Hf as [| ? ? Hq Hr]; subst. cbn [lead_LF].
    rewrite lines_of_app_LF by exact Hx. rewrite IH by assumption. reflexivity.
Qed.

Lemma mk_lines_at : forall pre x rest n off,
  nth (length pre) (mk_lines n off (pre ++ x :: rest)%list) default_line =
  mkLine (n + length pre) (off + String.length (with_LF pre))
         (off + String.length (with_LF pre) + String.length x) x.
Proof.
  induction pre as [| p pre IH]; intros x rest n off.
  - simpl. f_equal; lia.
  - cbn [app length mk_lines nth with_LF]. rewrite IH.
    rewrite !str_length_app. change (String.length LF) with 1. f_equal; lia.
Qed.

Lemma skipn_length_app : forall {A} (pre l : list A), skipn (length pre) (pre ++ l)%list = l.
Proof. induction pre as [| p pre IH]; intros l; [reflexivity | apply IH]. Qed.

Lemma skipn_length_app_cons : forall {A} (pre l : list A) x,
  skipn (length pre + 1) (pre ++ x :: l)%list = l.
Proof. induction pre as [| p pre IH]; intros l x; [reflexivity | apply IH]. Qed.

Lemma trimStart_app_blank : forall a z, trimStart a = "" -> trimStart (a ++ z) = trimStart z.
Proof.
  induction a as [| c a IH]; intros z H; [reflexivity |].
  simpl in *. destruct (is_js_space c); [apply IH, H | discriminate].
Qed.

(** The two characters before a position inside line [a ++ b], at the
    boundary of [a] and [b], are [|>] only if [a] ends with [|>]. *)
Lemma prev_chars_in_line : forall pre a b post,
  substring (String.length (with_LF pre) + String.length a - 2)
    (String.length (with_LF pre) + String.length a
     - (String.length (with_LF pre) + String.length a - 2))
    (with_LF pre ++ a ++ b ++ lead_LF post) = "|>" ->
  exists a0, a = (a0 ++ "|>")%string.
Proof.
  intros pre a b post H.
  set (W := with_LF pre) in *.
  assert (Hge : 2 <= String.length W + String.length a).
  { apply (f_equal String.length) in H. pose proof (substring_length_le
      (W ++ a ++ b ++ lead_LF post) (String.length W + String.length a - 2)
      (String.length W + String.length a - (String.length W + String.length a - 2))).
    rewrite H in *. simpl in *. lia. }
  replace (String.length W + String.length a - (String.length W + String.length a - 2))
    with 2 in H by lia.
  destruct (Nat.le_gt_cases 2 (String.length a)) as [Ha | Ha].
  - destruct (split_string a (String.length a - 2)) as (a1 & a2 & Ea & Hl1); [lia |].
    assert (Hl2 : String.length a2 = 2)
      by (pose proof (f_equal String.length Ea) as E; rewrite str_length_app in E; lia).
    exists a1. rewrite Ea. f_equal.
    rewrite Ea, !str_app_assoc, <- (str_app_assoc W a1) in H.
    replace (String.length W + String.length (a1 ++ a2) - 2)
      with (String.length (W ++ a1) + 0) in H
      by (rewrite !str_length_app; lia).
    rewrite substring_app_r, <- Hl2, substring_all in H. exact H.
  - exfalso. destruct pre as [| p0 pre0] using rev_ind.
    { subst W. simpl in Hge. lia. }
    subst W. rewrite with_LF_snoc in *. clear IHpre0.
    set (W0 := (with_LF pre0 ++ p0)%string).
    assert (EW : (with_LF pre0 ++ p0 ++ LF)%string = (W0 ++ LF)%string)
      by (subst W0; rewrite str_app_assoc; reflexivity).
    rewrite EW in *. rewrite str_length_app in *. change (String.length LF) with 1 in *.
    set (i := String.length W0 - (String.length W0 + 1 + String.length a - 2)).
    assert (Hi : i < 2) by (subst i; lia).
    assert (Hg := substring_correct1 ((W0 ++ LF) ++ a ++ b ++ lead_LF post)
      (String.length W0 + 1 + String.length a - 2) 2 i Hi).
    rewrite H in Hg.
    replace (i + (String.length W0 + 1 + String.length a - 2)) with (0 + String.length W0)
      in Hg by (subst i; lia).
    rewrite str_app_assoc, <- append_correct2 in Hg.
    destruct i as [| [| i]]; [discriminate Hg | discriminate Hg | lia].
Qed.

(** Pressing Space right after [|>] (with one empty selection) splits the
    cursor line [a0 ++ "|>" ++ b] of a document into three lines
    [a0 ++ "|> "], an empty line and [<| ++ b], leaves every other line as
    it was, puts the cursor at the end of the first of them, and the new
    line is paired with the close tag two lines below it; the new line is a
    toggle line when only whitespace precedes [|>]. *)
Theorem autoCloseKeymap_inserts_block : forall doc ranges s' anchor,
  Forall (fun l => no_LF l = true) doc ->
  autoCloseKeymap_run doc ranges = Some (s', anchor) ->
  exists pre a0 b post,
    doc = (pre ++ (a0 ++ "|>" ++ b)%string :: post)%list /\
    lines_of s' = (pre ++ (a0 ++ "|> ")%string :: "" :: ("<|" ++ b)%string :: post)%list /\
    anchor = to (doc_line (lines_of s') (length pre + 1)) /\
    findMatchingEndLine (lines_of s') (length pre + 1) = Some (length pre + 3) /\
    (trimStart a0 = "" ->
       startsWith (trimStart (nth (length pre) (lines_of s') "")) START_TAG = true).
Proof.
  intros doc ranges s' anchor Hnl Hrun.
  unfold autoCloseKeymap_run in Hrun.
  destruct ranges as [| [rf pos] [| r2 rs]]; try discriminate.
  destruct (negb (rf =? pos)); [discriminate |].
  destruct (String.eqb_spec (sliceString doc (pos - 2) pos) "|>") as [Hs | _];
    [| discriminate].
  assert (Es : s' = (substring 0 pos (doc_string doc) ++ autoClose_insertText
                      ++ substring pos (String.length (doc_string doc) - pos) (doc_string doc))%string
                /\ anchor = pos + 1) by (injection Hrun; intros; split; congruence).
  destruct Es as [-> ->]. clear Hrun.
  unfold sliceString in Hs.
  assert (Hpos : 2 <= pos <= String.length (doc_string doc)).
  { pose proof (substring_length_le (doc_string doc) (pos - 2) (pos - (pos - 2))).
    pose proof (substring_short (doc_string doc) (pos - 2) (pos - (pos - 2))).
    rewrite Hs in *. simpl in *. lia. }
  destruct (locate doc pos) as (pre & a & b & post & Hd & Hp);
    [intros ->; simpl in Hpos; lia | apply Hpos |].
  rewrite Hd, doc_string_split in Hs. rewrite Hp in Hs.
  rewrite str_app_assoc in Hs. destruct (prev_chars_in_line pre a b post Hs) as [a0 ->].
  assert (Hf := Hnl). rewrite Hd in Hf. apply Forall_app in Hf as [Hpre Hrest].
  apply Forall_cons_iff in Hrest as [Hab Hpost].
  rewrite !no_LF_app in Hab. apply andb_prop in Hab as [Ha0 Hb].
  apply andb_prop in Ha0 as [Ha0 _].
  set (W := with_LF pre) in *.
  assert (Hnew : ((substring 0 (String.length W + String.length (a0 ++ "|>"))
                     (doc_string (pre ++ ((a0 ++ "|>") ++ b)%string :: post)%list))
                  ++ autoClose_insertText
                  ++ substring (String.length W + String.length (a0 ++ "|>"))
                       (String.length (doc_string (pre ++ ((a0 ++ "|>") ++ b)%string :: post)%list)
                        - (String.length W + String.length (a0 ++ "|>")))
                       (doc_string (pre ++ ((a0 ++ "|>") ++ b)%string :: post)%list))%string
                 = (W ++ (a0 ++ "|> ") ++ LF ++ LF ++ ("<|" ++ b) ++ lead_LF post)%string).
  { assert (ED : doc_string (pre ++ ((a0 ++ "|>") ++ b)%string :: post)%list
                 = ((W ++ (a0 ++ "|>")) ++ (b ++ lead_LF post))%string)
      by (rewrite doc_string_split; fold W; rewrite !str_app_assoc; reflexivity).
    rewrite ED, <- str_length_app, substring_all, substring_app_rest.
    unfold autoClose_insertText. rewrite !str_app_assoc. reflexivity. }
  rewrite <- Hd, <- Hp in Hnew. rewrite Hnew. clear Hnew.
  assert (Hlines : lines_of (W ++ (a0 ++ "|> ") ++ LF ++ LF ++ ("<|" ++ b) ++ lead_LF post)%string
                   = (pre ++ (a0 ++ "|> ")%string :: "" :: ("<|" ++ b)%string :: post)%list).
  { subst W. rewrite lines_of_with_LF by exact Hpre. f_equal.
    rewrite lines_of_app_LF by (rewrite no_LF_app, Ha0; reflexivity).
    f_equal. change (lines_of (LF ++ ("<|" ++ b) ++ lead_LF post))
      with ("" :: lines_of (("<|" ++ b) ++ lead_LF post)).
    rewrite lines_of_lead_LF; [reflexivity | exact Hb | exact Hpost]. }
  rewrite Hlines.
  exists pre, a0, b, post. split; [rewrite Hd, str_app_assoc; reflexivity |].
  split; [reflexivity |]. split; [| split].
  - unfold doc_line, doc_lines. replace (length pre + 1 - 1) with (length pre) by lia.
    rewrite mk_lines_at. cbn [to]. rewrite Hp. subst W. rewrite !str_length_app. simpl. lia.
  - unfold findMatchingEndLine. rewrite skipn_length_app_cons. simpl.
    replace (startsWith b "") with true by (destruct b; reflexivity). f_equal. lia.
  - intros Ht. rewrite app_nth2, Nat.sub_diag by lia. cbn [nth].
    rewrite trimStart_app_blank by exact Ht. reflexivity.
Qed.

Lemma autoCloseKeymap_inserts_block_witness :
  Forall (fun l => no_LF l = true) ["A"; "  |>B"] /\
  autoCloseKeymap_run ["A"; "  |>B"] [(6, 6)] = Some (doc_string ["A"; "  |> "; ""; "<|B"], 7) /\
  exists pre a0 b post,
    ["A"; "  |>B"] = (pre ++ (a0 ++ "|>" ++ b)%string :: post)%list /\
    lines_of (doc_string ["A"; "  |> "; ""; "<|B"])
      = (pre ++ (a0 ++ "|> ")%string :: "" :: ("<|" ++ b)%string :: post)%list /\
    7 = to (doc_line (lines_of (doc_string ["A"; "  |> "; ""; "<|B"])) (length pre + 1)) /\
    findMatchingEndLine (lines_of (doc_string ["A"; "  |> "; ""; "<|B"])) (length pre + 1)
      = Some (length pre + 3) /\
    (trimStart a0 = "" ->
       startsWith (trimStart (nth (length pre) (lines_of (doc_string ["A"; "  |> "; ""; "<|B"])) ""))
         START_TAG = true).
Proof.
  assert (H1 : Forall (fun l => no_LF l = true) ["A"; "  |>B"]) by (repeat constructor).
  assert (H2 : autoCloseKeymap_run ["A"; "  |>B"] [(6, 6)]
               = Some (doc_string ["A"; "  |> "; ""; "<|B"], 7)) by (vm_compute; reflexivity).
  split; [exact H1 | split; [exact H2 |]].
  exact (autoCloseKeymap_inserts_block _ _ _ _ H1 H2).
Defined.

(** ** Hidden native fold arrows *)

Lemma hash_not_marker : forall t, startsWith t "#" = true ->
  startsWith t START_TAG = false /\ startsWith t "```" = false /\ startsWith t "~~~" = false.
Proof.
  intros [| c t] H; [discriminate |]. unfold startsWith in *. cbn [prefix] in H.
  destruct (Ascii.ascii_dec "#"%char c) as [<- | _]; [| discriminate]. repeat split; reflexivity.
Qed.

Lemma hideGutter_loop_spec : forall ts n off,
  StronglySorted lt (hideGutter_loop (mk_lines n off ts)) /\
  forall p, In p (hideGutter_loop (mk_lines n off ts)) ->
    off <= p /\
    exists ln, In ln (mk_lines n off ts) /\ from ln = p /\
      (startsWith (trimStart (text ln)) START_TAG = true \/
       startsWith (trimStart (text ln)) "```" = true \/
       startsWith (trimStart (text ln)) "~~~" = true).
Proof.
  induction ts as [| t ts IH]; intros n off.
  - split; [constructor | intros p []].
  - destruct (IH (S n) (off + String.length t + 1)) as [Hs Hin].
    assert (Hrest : forall p, In p (hideGutter_loop (mk_lines (S n) (off + String.length t + 1) ts)) ->
      off <= p /\ exists ln, In ln (mk_lines n off (t :: ts)) /\ from ln = p /\
        (startsWith (trimStart (text ln)) START_TAG = true \/
         startsWith (trimStart (text ln)) "```" = true \/
         startsWith (trimStart (text ln)) "~~~" = true)).
    { intros p Hp. destruct (Hin p Hp) as [Hle (ln & Hln & Hf & Hm)].
      split; [lia | exists ln; split; [right; exact Hln | split; assumption]]. }
    assert (Hhead : Forall (lt off) (hideGutter_loop (mk_lines (S n) (off + String.length t + 1) ts))).
    { apply Forall_forall. intros p Hp. destruct (Hin p Hp). lia. }
    cbn [mk_lines hideGutter_loop from text].
    destruct (startsWith (trimStart t) START_TAG) eqn:Est.
    + destruct (negb _).
      * split; [constructor; assumption |].
        intros p [<- | Hp]; [| exact (Hrest p Hp)].
        split; [lia | exists (mkLine n off (off + String.length t) t)].
        split; [left; reflexivity | split; [reflexivity | left; exact Est]].
      * split; assumption.
    + destruct ((startsWith (trimStart t) "```" || startsWith (trimStart t) "~~~")
                && isCodeBlockToggle (trimStart t)) eqn:Ecb.
      * split; [constructor; assumption |].
        intros p [<- | Hp]; [| exact (Hrest p Hp)].
        split; [lia | exists (mkLine n off (off + String.length t) t)].
        split; [left; reflexivity | split; [reflexivity |]].
        apply andb_prop in Ecb as [Ecb _]. apply orb_prop in Ecb. right; exact Ecb.
      * split; assumption.
Qed.

(** The markers of [hideNativeFoldGutter] come in strictly increasing
    order (as [RangeSetBuilder] requires), each at the start of a line whose
    trimmed text opens a toggle or a fence, and the heading fold service
    never offers a fold on such a line. *)
Theorem hideNativeFoldGutter_sorted_no_fold : forall doc,
  StronglySorted lt (hideNativeFoldGutter doc) /\
  forall p, In p (hideNativeFoldGutter doc) ->
    exists k, 1 <= k <= length doc /\ from (doc_line doc k) = p /\
      notionFoldService doc k = None.
Proof.
  intros doc. destruct (hideGutter_loop_spec doc 1 0) as [Hs Hin].
  split; [exact Hs |]. intros p Hp.
  destruct (Hin p Hp) as [_ (ln & Hln & Hf & Hm)].
  destruct (doc_line_in doc ln Hln) as [Eln Hk].
  exists (number ln). split; [exact Hk |]. rewrite Eln. split; [exact Hf |].
  unfold notionFoldService. rewrite Eln.
  destruct (startsWith (text ln) START_TAG); [reflexivity |].
  destruct (startsWith (trimStart (text ln)) "#") eqn:Eh; [| reflexivity].
  exfalso. destruct (hash_not_marker _ Eh) as (H1 & H2 & H3).
  destruct Hm as [Hm | [Hm | Hm]]; congruence.
Qed.

(** ** The insert commands *)

Lemma lines_of_all_no_LF : forall s, Forall (fun l => no_LF l = true) (lines_of s).
Proof.
  induction s as [| c s IH]; [repeat constructor |]. simpl.
  destruct (Ascii.eqb c (ascii_of_nat 10)) eqn:Ec; [constructor; [reflexivity | exact IH] |].
  destruct (lines_of s) as [| l ls]; [repeat constructor; simpl; rewrite Ec; reflexivity |].
  inversion IH; subst. constructor; [simpl; rewrite Ec, H1; reflexivity | assumption].
Qed.

Lemma lines_of_LF_split : forall x z,
  lines_of (x ++ LF ++ z) = (lines_of x ++ lines_of z)%list.
Proof.
  induction x as [| c x IH]; intros z; [reflexivity |].
  cbn [String.append lines_of]. rewrite IH.
  destruct (Ascii.eqb c (ascii_of_nat 10)); [reflexivity |].
  pose proof (lines_of_nonempty x). destruct (lines_of x); [congruence | reflexivity].
Qed.

Lemma lines_of_merge : forall x Y d post, lines_of Y = d :: post ->
  lines_of (x ++ Y) = (lines_of (x ++ d) ++ post)%list.
Proof.
  induction x as [| c x IH]; intros Y d post HY.
  - cbn [String.append]. rewrite HY.
    assert (Hd : no_LF d = true).
    { pose proof (lines_of_all_no_LF Y) as HF. rewrite HY in HF. inversion HF; assumption. }
    rewrite <- (append_empty_r d) at 2. rewrite lines_of_app by exact Hd.
    cbn. rewrite append_empty_r. reflexivity.
  - cbn [String.append lines_of]. rewrite (IH Y d post HY).
    destruct (Ascii.eqb c (ascii_of_nat 10)); [reflexivity |].
    pose proof (lines_of_nonempty (x ++ d)). destruct (lines_of (x ++ d)); [congruence | reflexivity].
Qed.

Lemma substring_prefix_length : forall R m, m <= String.length R ->
  String.length (substring 0 m R) = m.
Proof.
  intros R m Hm. destruct (split_string R m Hm) as (R1 & R2 & -> & <-).
  rewrite substring_all. reflexivity.
Qed.

Lemma substring_split : forall R m, m <= String.length R ->
  R = (substring 0 m R ++ substring m (String.length R - m) R)%string.
Proof.
  intros R m Hm. destruct (split_string R m Hm) as (R1 & R2 & -> & <-).
  rewrite substring_all, substring_app_rest. reflexivity.
Qed.

Lemma cursor_loop_at : forall pre x rest n off j, j <= String.length x ->
  cursor_loop (mk_lines n off (pre ++ x :: rest)%list) (off + String.length (with_LF pre) + j)
  = mkEditorPosition (n + length pre - 1) j.
Proof.
  induction pre as [| p pre IH]; intros x rest n off j Hj.
  - cbn [app mk_lines cursor_loop to with_LF from number String.length].
    replace (off + 0 + j <=? off + String.length x) with true by (symmetry; apply Nat.leb_le; lia).
    cbn [length]. f_equal; lia.
  - cbn [app mk_lines cursor_loop to with_LF from number].
    rewrite !str_length_app. change (String.length LF) with 1.
    replace (off + (String.length p + (1 + String.length (with_LF pre))) + j <=? off + String.length p)
      with false by (symmetry; apply Nat.leb_gt; lia).
    replace (off + (String.length p + (1 + String.length (with_LF pre))) + j)
      with (off + String.length p + 1 + String.length (with_LF pre) + j) by lia.
    rewrite IH by exact Hj. cbn [length]. f_equal; lia.
Qed.

(** Replacing the text between [sfrom] and [sto] by [T]: the lines
    before the first touched line are kept, the touched lines are re-split
    from [a ++ T ++ Y], where [a] is the text before [sfrom] on its line
    and [Y] the text from [sto] on. *)
Lemma replace_lines : forall doc sfrom sto T, doc <> [] ->
  Forall (fun l => no_LF l = true) doc ->
  sfrom <= sto <= String.length (doc_string doc) ->
  exists pre a Y,
    doc = (pre ++ lines_of (a ++ substring sfrom (sto - sfrom) (doc_string doc) ++ Y))%list /\
    lines_of (replaceRange (doc_string doc) sfrom sto T) = (pre ++ lines_of (a ++ T ++ Y))%list /\
    no_LF a = true /\
    getCursor doc sfrom = mkEditorPosition (length pre) (String.length a).
Proof.
  intros doc sfrom sto T Hne Hnl [Hft Hto].
  destruct (locate doc sfrom Hne ltac:(lia)) as (pre & a & b & post0 & Hd & Hp).
  assert (Hf := Hnl). rewrite Hd in Hf. apply Forall_app in Hf as [Hpre Hrest].
  apply Forall_cons_iff in Hrest as [Hab Hpost].
  rewrite no_LF_app in Hab. apply andb_prop in Hab as [Ha Hb].
  set (W := with_LF pre) in *. set (R := (b ++ lead_LF post0)%string).
  assert (ES : doc_string doc = ((W ++ a) ++ R)%string)
    by (rewrite Hd, doc_string_split; subst W R; rewrite !str_app_assoc; reflexivity).
  set (m := sto - sfrom).
  assert (Hm : m <= String.length R)
    by (subst m; rewrite ES, !str_length_app in Hto; lia).
  set (sel := substring 0 m R). set (Y := substring m (String.length R - m) R).
  assert (ER : R = (sel ++ Y)%string) by (apply substring_split; exact Hm).
  assert (Esel : substring sfrom m (doc_string doc) = sel).
  { rewrite ES, <- (Nat.add_0_r sfrom), Hp, <- str_length_app, substring_app_r. reflexivity. }
  exists pre, a, Y. rewrite Esel. split; [| split; [| split]].
  - rewrite Hd at 1. f_equal. rewrite <- ER. subst R.
    symmetry. rewrite <- str_app_assoc. apply lines_of_lead_LF; [rewrite no_LF_app, Ha, Hb; reflexivity | exact Hpost].
  - unfold replaceRange. rewrite ES.
    rewrite Hp, <- str_length_app, substring_all.
    replace sto with (String.length (W ++ a) + m) by (subst m; rewrite str_length_app; lia).
    rewrite substring_app_r.
    replace (String.length ((W ++ a) ++ R) - (String.length (W ++ a) + m))
      with (String.length R - m) by (rewrite str_length_app; lia).
    fold Y. subst W. rewrite str_app_assoc, lines_of_with_LF by exact Hpre. reflexivity.
  - exact Ha.
  - unfold getCursor, doc_lines. rewrite Hd, Hp.
    replace (String.length W + String.length a) with (0 + String.length W + String.length a) by lia.
    subst W. rewrite cursor_loop_at by (rewrite str_length_app; lia). f_equal; lia.
Qed.

(** The counter of [findMatchingEndLine] after the lines [ts], started at
    [stack]; [None] when it reaches 0 on one of them. *)
Fixpoint fme_stack (ts : list string) (stack : nat) : option nat :=
  match ts with
  | [] => Some stack
  | t :: ts' =>
      let lineText := trimStart t in
      if startsWith lineText START_TAG then fme_stack ts' (S stack)
      else if startsWith lineText END_TAG then
        if Nat.eqb (stack - 1) 0 then None else fme_stack ts' (stack - 1)
      else fme_stack ts' stack
  end.

Lemma fme_loop_skip : forall mid rest i stack stack', fme_stack mid stack = Some stack' ->
  fme_loop i (mid ++ rest)%list stack = fme_loop (i + length mid) rest stack'.
Proof.
  induction mid as [| t mid IH]; intros rest i stack stack' H.
  - injection H as <-. rewrite Nat.add_0_r. reflexivity.
  - cbn [app fme_loop fme_stack length] in *.
    destruct (startsWith (trimStart t) START_TAG).
    + rewrite (IH _ _ _ _ H). f_equal. lia.
    + destruct (startsWith (trimStart t) END_TAG).
      * destruct (Nat.eqb (stack - 1) 0); [discriminate |].
        rewrite (IH _ _ _ _ H). f_equal. lia.
      * rewrite (IH _ _ _ _ H). f_equal. lia.
Qed.

Lemma find_fence_end_skip : forall tok mid rest k,
  Forall (fun t => startsWith (trimStart t) tok = false) mid ->
  find_fence_end tok k (mid ++ rest)%list = find_fence_end tok (k + length mid) rest.
Proof.
  induction mid as [| t mid IH]; intros rest k H.
  - rewrite Nat.add_0_r. reflexivity.
  - inversion H as [| ? ? Ht Hr]; subst. cbn [app find_fence_end length].
    rewrite Ht, IH by exact Hr. f_equal. lia.
Qed.

Lemma empty_selection : forall S sfrom sto, sfrom <= sto <= String.length S ->
  substring sfrom (sto - sfrom) S = "" -> sto = sfrom.
Proof.
  intros S sfrom sto Hr Hsel. apply (f_equal String.length) in Hsel.
  destruct (split_string S sfrom) as (S1 & S2 & ES & HS1); [lia |].
  rewrite ES in Hsel, Hr.
  rewrite <- (Nat.add_0_r sfrom), <- HS1, substring_app_r in Hsel.
  rewrite str_length_app in Hr.
  rewrite substring_prefix_length in Hsel; [simpl in Hsel; lia | lia].
Qed.

(** The [insert-toggle] command replaces the selection [sel] by [|> ],
    a line break, [sel], a line break and [<|]: the first touched line
    [a ++ sel ++ d] becomes [a ++ "|> "], the lines of [sel], and
    [<| ++ d], the other lines are kept; with an empty selection the
    cursor goes to the end of the new toggle line, which is a toggle line
    when only whitespace precedes the selection on its line; when the
    selected lines close no toggle they do not open, the new line is paired
    with the inserted close tag. *)
Theorem insertToggle_wraps : forall doc sfrom sto s' cur,
  doc <> [] -> Forall (fun l => no_LF l = true) doc ->
  sfrom <= sto <= String.length (doc_string doc) ->
  insertToggle doc (sfrom, sto) = (s', cur) ->
  let sel := substring sfrom (sto - sfrom) (doc_string doc) in
  exists pre a d post,
    doc = (pre ++ lines_of (a ++ sel ++ d) ++ post)%list /\
    lines_of s' = (pre ++ (a ++ "|> ")%string :: lines_of sel ++ ("<|" ++ d)%string :: post)%list /\
    (sel = "" -> cur = Some (mkEditorPosition (length pre) (String.length (a ++ "|> ")))) /\
    (trimStart a = "" -> startsWith (trimStart (a ++ "|> ")) START_TAG = true) /\
    (fme_stack (lines_of sel) 1 = Some 1 ->
       findMatchingEndLine (lines_of s') (length pre + 1)
       = Some (length pre + length (lines_of sel) + 2)).
Proof.
  intros doc sfrom sto s' cur Hne Hnl Hr Hcmd sel.
  destruct (replace_lines doc sfrom sto ("|> " ++ LF ++ sel ++ LF ++ "<|")%string Hne Hnl Hr)
    as (pre & a & Y & Hd & Hl & Ha & Hc).
  fold sel in Hd.
  destruct (lines_of Y) as [| d post] eqn:EY; [exfalso; exact (lines_of_nonempty Y EY) |].
  assert (Hs' : lines_of s' = (pre ++ (a ++ "|> ")%string :: lines_of sel ++ ("<|" ++ d)%string :: post)%list).
  { assert (E : s' = replaceRange (doc_string doc) sfrom sto ("|> " ++ LF ++ sel ++ LF ++ "<|")%string).
    { unfold insertToggle in Hcmd. fold sel in Hcmd.
      destruct (String.eqb_spec sel "") as [E | _]; cbn [negb] in Hcmd;
        injection Hcmd as <- _; [rewrite E |]; reflexivity. }
    rewrite E, Hl. f_equal.
    replace (a ++ ("|> " ++ LF ++ sel ++ LF ++ "<|") ++ Y)%string
      with ((a ++ "|> ") ++ LF ++ (sel ++ LF ++ ("<|" ++ Y)))%string
      by (rewrite !str_app_assoc; reflexivity).
    rewrite lines_of_app_LF by (rewrite no_LF_app, Ha; reflexivity).
    rewrite lines_of_LF_split, lines_of_app, EY by reflexivity. reflexivity. }
  exists pre, a, d, post. split; [| split; [exact Hs' | split; [| split]]].
  - rewrite Hd. f_equal. rewrite <- (str_app_assoc a sel Y), <- (str_app_assoc a sel d). apply lines_of_merge. exact EY.
  - intros Hsel. unfold insertToggle in Hcmd. fold sel in Hcmd. rewrite Hsel in Hcmd.
    cbn [String.eqb negb] in Hcmd. injection Hcmd as _ <-.
    pose proof (empty_selection _ _ _ Hr Hsel). subst sto. rewrite Hc. rewrite str_length_app. reflexivity.
  - intros Ht. rewrite trimStart_app_blank by exact Ht. reflexivity.
  - intros Hst. rewrite Hs'. unfold findMatchingEndLine. rewrite skipn_length_app_cons.
    rewrite (fme_loop_skip _ _ _ _ _ Hst). simpl.
    replace (startsWith d "") with true by (destruct d; reflexivity). f_equal. lia.
Qed.

Lemma insertToggle_wraps_witness :
  ["A"; "B"; "C"] <> [] /\ Forall (fun l => no_LF l = true) ["A"; "B"; "C"] /\
  2 <= 3 <= String.length (doc_string ["A"; "B"; "C"]) /\
  insertToggle ["A"; "B"; "C"] (2, 3) = (doc_string ["A"; "|> "; "B"; "<|"; "C"], None) /\
  let sel := substring 2 (3 - 2) (doc_string ["A"; "B"; "C"]) in
  exists pre a d post,
    ["A"; "B"; "C"] = (pre ++ lines_of (a ++ sel ++ d) ++ post)%list /\
    lines_of (doc_string ["A"; "|> "; "B"; "<|"; "C"])
      = (pre ++ (a ++ "|> ")%string :: lines_of sel ++ ("<|" ++ d)%string :: post)%list /\
    (sel = "" -> @None EditorPosition
                 = Some (mkEditorPosition (length pre) (String.length (a ++ "|> ")))) /\
    (trimStart a = "" -> startsWith (trimStart (a ++ "|> ")) START_TAG = true) /\
    (fme_stack (lines_of sel) 1 = Some 1 ->
       findMatchingEndLine (lines_of (doc_string ["A"; "|> "; "B"; "<|"; "C"])) (length pre + 1)
       = Some (length pre + length (lines_of sel) + 2)).
Proof.
  assert (H1 : ["A"; "B"; "C"] <> []) by discriminate.
  assert (H2 : Forall (fun l => no_LF l = true) ["A"; "B"; "C"]) by (repeat constructor).
  assert (H3 : 2 <= 3 <= String.length (doc_string ["A"; "B"; "C"])) by (vm_compute; lia).
  assert (H4 : insertToggle ["A"; "B"; "C"] (2, 3)
               = (doc_string ["A"; "|> "; "B"; "<|"; "C"], None)) by (vm_compute; reflexivity).
  split; [exact H1 | split; [exact H2 | split; [exact H3 | split; [exact H4 |]]]].
  exact (insertToggle_wraps _ _ _ _ _ H1 H2 H3 H4).
Defined.

(** The [insert-code-toggle] command replaces the selection [sel] by
    [```> ], a line break, [sel], a line break and [```]: the first
    touched line [a ++ sel ++ d] becomes [a ++ "```> "], the lines of
    [sel], and [``` ++ d], the other lines are kept; with an empty selection
    the cursor goes to the end of the new line, which is a code-block toggle
    when only whitespace precedes the selection; when no selected line
    starts a backtick fence, the fence search of the builder from the new
    line stops at the inserted fence. *)
Theorem insertCodeToggle_wraps : forall doc sfrom sto s' cur,
  doc <> [] -> Forall (fun l => no_LF l = true) doc ->
  sfrom <= sto <= String.length (doc_string doc) ->
  insertCodeToggle doc (sfrom, sto) = (s', cur) ->
  let sel := substring sfrom (sto - sfrom) (doc_string doc) in
  exists pre a d post,
    doc = (pre ++ lines_of (a ++ sel ++ d) ++ post)%list /\
    lines_of s' = (pre ++ (a ++ "```> ")%string :: lines_of sel ++ ("```" ++ d)%string :: post)%list /\
    (sel = "" -> cur = Some (mkEditorPosition (length pre) (String.length (a ++ "```> ")))) /\
    (trimStart a = "" -> isCodeBlockToggle (trimStart (a ++ "```> ")) = true) /\
    (Forall (fun t => startsWith (trimStart t) "```" = false) (lines_of sel) ->
       find_fence_end "```" (length pre + 2) (skipn (length pre + 1) (lines_of s'))
       = Some (length pre + length (lines_of sel) + 2)).
Proof.
  intros doc sfrom sto s' cur Hne Hnl Hr Hcmd sel.
  destruct (replace_lines doc sfrom sto ("```> " ++ LF ++ sel ++ LF ++ "```")%string Hne Hnl Hr)
    as (pre & a & Y & Hd & Hl & Ha & Hc).
  fold sel in Hd.
  destruct (lines_of Y) as [| d post] eqn:EY; [exfalso; exact (lines_of_nonempty Y EY) |].
  assert (Hs' : lines_of s' = (pre ++ (a ++ "```> ")%string :: lines_of sel ++ ("```" ++ d)%string :: post)%list).
  { assert (E : s' = replaceRange (doc_string doc) sfrom sto ("```> " ++ LF ++ sel ++ LF ++ "```")%string).
    { unfold insertCodeToggle in Hcmd. fold sel in Hcmd.
      destruct (String.eqb_spec sel "") as [E | _]; cbn [negb] in Hcmd;
        injection Hcmd as <- _; [rewrite E |]; reflexivity. }
    rewrite E, Hl. f_equal.
    replace (a ++ ("```> " ++ LF ++ sel ++ LF ++ "```") ++ Y)%string
      with ((a ++ "```> ") ++ LF ++ (sel ++ LF ++ ("```" ++ Y)))%string
      by (rewrite !str_app_assoc; reflexivity).
    rewrite lines_of_app_LF by (rewrite no_LF_app, Ha; reflexivity).
    rewrite lines_of_LF_split, lines_of_app, EY by reflexivity. reflexivity. }
  exists pre, a, d, post. split; [| split; [exact Hs' | split; [| split]]].
  - rewrite Hd. f_equal. rewrite <- (str_app_assoc a sel Y), <- (str_app_assoc a sel d).
    apply lines_of_merge. exact EY.
  - intros Hsel. unfold insertCodeToggle in Hcmd. fold sel in Hcmd. rewrite Hsel in Hcmd.
    cbn [String.eqb negb] in Hcmd. injection Hcmd as _ <-.
    pose proof (empty_selection _ _ _ Hr Hsel). subst sto. rewrite Hc.
    rewrite str_length_app. reflexivity.
  - intros Ht. rewrite trimStart_app_blank by exact Ht. reflexivity.
  - intros Hf. rewrite Hs'. rewrite skipn_length_app_cons.
    replace (length pre + 2) with (S (length pre + 1)) by lia.
    rewrite find_fence_end_skip by exact Hf. simpl.
    replace (startsWith d "") with true by (destruct d; reflexivity). f_equal. lia.
Qed.

Lemma insertCodeToggle_wraps_witness :
  ["A"] <> [] /\ Forall (fun l => no_LF l = true) ["A"] /\
  0 <= 0 <= String.length (doc_string ["A"]) /\
  insertCodeToggle ["A"] (0, 0)
    = (doc_string ["```> "; ""; "```A"], Some (mkEditorPosition 0 5)) /\
  let sel := substring 0 (0 - 0) (doc_string ["A"]) in
  exists pre a d post,
    ["A"] = (pre ++ lines_of (a ++ sel ++ d) ++ post)%list /\
    lines_of (doc_string ["```> "; ""; "```A"])
      = (pre ++ (a ++ "```> ")%string :: lines_of sel ++ ("```" ++ d)%string :: post)%list /\
    (sel = "" -> Some (mkEditorPosition 0 5)
                 = Some (mkEditorPosition (length pre) (String.length (a ++ "```> ")))) /\
    (trimStart a = "" -> isCodeBlockToggle (trimStart (a ++ "```> ")) = true) /\
    (Forall (fun t => startsWith (trimStart t) "```" = false) (lines_of sel) ->
       find_fence_end "```" (length pre + 2)
         (skipn (length pre + 1) (lines_of (doc_string ["```> "; ""; "```A"])))
       = Some (length pre + length (lines_of sel) + 2)).
Proof.
  assert (H1 : ["A"] <> []) by discriminate.
  assert (H2 : Forall (fun l => no_LF l = true) ["A"]) by (repeat constructor).
  assert (H3 : 0 <= 0 <= String.length (doc_string ["A"])) by lia.
  assert (H4 : insertCodeToggle ["A"] (0, 0)
               = (doc_string ["```> "; ""; "```A"], Some (mkEditorPosition 0 5)))
    by (vm_compute; reflexivity).
  split; [exact H1 | split; [exact H2 | split; [exact H3 | split; [exact H4 |]]]].
  exact (insertCodeToggle_wraps _ _ _ _ _ H1 H2 H3 H4).
Defined.

(** ** The fold state field *)

Lemma fold_apply_effects : forall effects acc p,
  In p (fold_left apply_effect effects acc) <->
  match find (fun e => pos e =? p) (rev effects) with
  | Some e => on e = true
  | None => In p acc
  end.
Proof.
  intros effects acc p. induction effects as [| e effects IH] using rev_ind; [reflexivity |].
  rewrite fold_left_app, rev_app_distr. cbn [fold_left rev app find].
  unfold apply_effect at 1.
  destruct (pos e =? p) eqn:Ep.
  - apply Nat.eqb_eq in Ep. subst p.
    destruct (on e); split; try reflexivity.
    + intros _. apply in_set_add. left; reflexivity.
    + intros H. unfold set_delete in H. apply filter_In in H as [_ H].
      rewrite Nat.eqb_refl in H. discriminate.
    + discriminate.
  - apply Nat.eqb_neq in Ep. rewrite <- IH.
    destruct (on e).
    + rewrite in_set_add. split; [intros [-> | H]; [congruence | exact H] | right; exact H].
    + unfold set_delete. rewrite filter_In.
      split; [intros [H _]; exact H | intros H; split; [exact H |]].
      apply negb_true_iff, Nat.eqb_neq. congruence.
Qed.

(** After a transaction, a position is in the fold state exactly when the
    last toggle effect for it turned it on, or, when no effect names it,
    when it is the image under [mapPos] of a position of the old state. *)
Theorem foldState_last_effect_wins : forall mapPos effects value p,
  In p (foldState_update mapPos effects value) <->
  match find (fun e => pos e =? p) (rev effects) with
  | Some e => on e = true
  | None => exists q, In q value /\ p = mapPos q
  end.
Proof.
  intros mapPos effects value p. unfold foldState_update.
  rewrite fold_apply_effects.
  destruct (find _ _); [reflexivity |].
  destruct (remap_fold mapPos value [] (NoDup_nil _)) as [Hin _].
  unfold remap. rewrite Hin. split; [intros [[] | H]; exact H | intros H; right; exact H].
Qed.

(** ** Second version of the toggle plugin *)

Lemma v2_build_loop_in : forall doc folded ls a b w,
  In (a, b, w) (V2.build_loop doc folded ls) <->
  exists line fs fe, In line ls /\ startsWith (text line) START_TAG = true /\
    a = from line /\ b = from line + String.length START_TAG /\
    V2.find_end (S (number line)) (skipn (number line) doc) <> None /\
    fs = to line /\
    Some fe = option_map (fun e => to (doc_line doc e))
                (V2.find_end (S (number line)) (skipn (number line) doc)) /\
    w = V2.ToggleWidget (isFoldedRange folded fs fe) fs fe.
Proof.
  intros doc folded ls a b w. induction ls as [| ln ls IH]; cbn [V2.build_loop].
  - split; [intros [] | intros (line & fs & fe & [] & _)].
  - destruct (startsWith (text ln) START_TAG) eqn:Es;
      [destruct (V2.find_end (S (number ln)) (skipn (number ln) doc)) as [e |] eqn:Ef |].
    + cbn [In]. rewrite IH. split.
      * intros [Eq | (line & fs & fe & Hin & R)].
        -- injection Eq as Ha Hb Hw. subst a b w. exists ln, (to ln), (to (doc_line doc e)).
           rewrite Ef. repeat split; auto; congruence.
        -- exists line, fs, fe. split; [right; exact Hin | exact R].
      * intros (line & fs & fe & [<- | Hin] & R).
        -- destruct R as (_ & -> & -> & _ & -> & Hfe & ->). rewrite Ef in Hfe.
           injection Hfe as ->. left. reflexivity.
        -- right. exists line, fs, fe. split; [exact Hin | exact R].
    + rewrite IH. split.
      * intros (line & fs & fe & Hin & R). exists line, fs, fe. split; [right; exact Hin | exact R].
      * intros (line & fs & fe & [<- | Hin] & R); [| exists line, fs, fe; split; [exact Hin | exact R]].
        destruct R as (_ & _ & _ & Hn & _). congruence.
    + rewrite IH. split.
      * intros (line & fs & fe & Hin & R). exists line, fs, fe. split; [right; exact Hin | exact R].
      * intros (line & fs & fe & [<- | Hin] & R); [| exists line, fs, fe; split; [exact Hin | exact R]].
        destruct R as (Hs & _). congruence.
Qed.

(** In the second version of the plugin, the toggle widgets are exactly
    the START lines on which the fold service offers a fold: each widget
    replaces the line's open tag and carries the service's fold range,
    which its click folds or unfolds. *)
Theorem v2_widgets_match_fold_service : forall doc folded a b w,
  In (a, b, w) (V2.buildDecorations doc folded) <->
  exists n fs fe, 1 <= n <= length doc /\
    a = from (doc_line doc n) /\ b = a + String.length START_TAG /\
    V2.notionFoldService doc n = Some (fs, fe) /\
    w = V2.ToggleWidget (isFoldedRange folded fs fe) fs fe.
Proof.
  intros doc folded a b w. unfold V2.buildDecorations. rewrite v2_build_loop_in. split.
  - intros (line & fs & fe & Hin & Hs & Ha & Hb & Hne & Hfs & Hfe & Hw).
    destruct (doc_line_in doc line Hin) as [Eln Hn].
    exists (number line), fs, fe. split; [exact Hn |]. rewrite Eln.
    split; [exact Ha | split; [congruence | split; [| exact Hw]]].
    unfold V2.notionFoldService. rewrite Eln, Hs.
    destruct (V2.find_end _ _); [| congruence]. cbn in Hfe. congruence.
  - intros (n & fs & fe & Hn & Ha & Hb & Hsv & Hw).
    assert (Hin : In (doc_line doc n) (doc_lines doc)).
    { unfold doc_line. apply nth_In. unfold doc_lines. rewrite mk_lines_length. lia. }
    destruct (doc_line_in doc _ Hin) as [_ _].
    assert (Hnum : number (doc_line doc n) = n).
    { unfold doc_line, doc_lines. destruct (mk_lines_nth doc 1 0 (n - 1)) as (H & _); [lia |]. lia. }
    exists (doc_line doc n), fs, fe. split; [exact Hin |].
    unfold V2.notionFoldService in Hsv.
    destruct (startsWith (text (doc_line doc n)) START_TAG) eqn:Hs; [| discriminate].
    rewrite Hnum.
    destruct (V2.find_end (S n) (skipn n doc)) as [e |] eqn:Ef; [| discriminate].
    injection Hsv as <- <-.
    repeat split; auto; congruence.
Qed.

(** ** First version: flat folds *)

Lemma mk_lines_adjacent : forall ts n off a, S a < length ts ->
  from (nth (S a) (mk_lines n off ts) default_line)
  = to (nth a (mk_lines n off ts) default_line) + 1.
Proof.
  induction ts as [| t ts IH]; intros n off a Ha; simpl in Ha; [lia |].
  destruct a as [| a].
  - destruct ts as [| u ts]; simpl in Ha; [lia | reflexivity].
  - cbn [nth mk_lines]. apply IH. lia.
Qed.

Lemma mk_lines_last_to : forall ts n off, ts <> [] ->
  to (nth (length ts - 1) (mk_lines n off ts) default_line)
  = off + String.length (String.concat LF ts).
Proof.
  induction ts as [| t ts IH]; intros n off H; [congruence |].
  destruct ts as [| u ts].
  - reflexivity.
  - rewrite concat_cons by congruence.
    replace (length (t :: u :: ts) - 1) with (S (length (u :: ts) - 1)) by (simpl; lia).
    change (to (nth (length (u :: ts) - 1) (mk_lines (S n) (off + String.length t + 1) (u :: ts))
      default_line) = off + String.length (t ++ LF ++ String.concat LF (u :: ts))).
    rewrite IH by congruence. rewrite !str_length_app. simpl. lia.
Qed.

Lemma doc_line_adjacent : forall doc m, 1 <= m < length doc ->
  from (doc_line doc (S m)) = to (doc_line doc m) + 1.
Proof.
  intros doc m Hm. unfold doc_line, doc_lines.
  replace (S m - 1) with (S (m - 1)) by lia. apply mk_lines_adjacent. lia.
Qed.

Lemma doc_line_last_to : forall doc, doc <> [] ->
  to (doc_line doc (length doc)) = doc_length doc.
Proof.
  intros doc H. unfold doc_line, doc_lines, doc_length, doc_string.
  rewrite mk_lines_last_to by exact H. reflexivity.
Qed.

Lemma doc_line_to_le : forall doc m, 1 <= m <= length doc ->
  to (doc_line doc m) <= doc_length doc.
Proof.
  intros doc m Hm. rewrite <- doc_line_last_to by (destruct doc; simpl in Hm; [lia | congruence]).
  destruct (Nat.eq_dec m (length doc)) as [-> | Hne]; [lia |].
  pose proof (doc_line_order doc m (length doc)).
  destruct (doc_line_text doc (length doc)) as (_ & Hw); [lia |]. unfold line_wf in Hw. lia.
Qed.

Section FlatFold.

Variable doc : Doc.

Let tm (m : nat) : bool := V0.TOGGLE_SYNTAX_match (text (doc_line doc m)).

(** [j] is the first toggle line after [i], or [doc.lines + 1]. *)
Definition next_toggle (i j : nat) : Prop :=
  i < j <= length doc + 1 /\
  (forall m, i < m < j -> V0.TOGGLE_SYNTAX_match (text (doc_line doc m)) = false) /\
  (j <= length doc -> V0.TOGGLE_SYNTAX_match (text (doc_line doc j)) = true).

Lemma next_toggle_unique : forall i j1 j2, next_toggle i j1 -> next_toggle i j2 -> j1 = j2.
Proof.
  intros i j1 j2 (H1 & F1 & T1) (H2 & F2 & T2).
  destruct (lt_eq_lt_dec j1 j2) as [[Hlt | Heq] | Hlt]; [| exact Heq |].
  - specialize (T1 ltac:(lia)). rewrite F2 in T1 by lia. discriminate.
  - specialize (T2 ltac:(lia)). rewrite F1 in T2 by lia. discriminate.
Qed.

Lemma scan_next_spec : forall fuel i j, 1 <= i -> i < j <= length doc + 1 ->
  (forall m, i < m < j -> V0.TOGGLE_SYNTAX_match (text (doc_line doc m)) = false) ->
  length doc + 1 - j <= fuel ->
  exists j', next_toggle i j' /\ V0.scan_next doc j fuel = (to (doc_line doc (j' - 1)), j').
Proof.
  induction fuel as [| fuel IH]; intros i j Hi Hj Hf Hfuel.
  - assert (j = length doc + 1) as -> by lia.
    exists (length doc + 1). split; [split; [lia | split; [exact Hf | lia]] |].
    simpl. replace (length doc + 1 - 1) with (length doc) by lia.
    rewrite doc_line_last_to; [reflexivity |]. destruct doc; simpl in *; [lia | congruence].
  - simpl. destruct (j <=? length doc) eqn:Ej.
    + apply Nat.leb_le in Ej.
      destruct (V0.TOGGLE_SYNTAX_match (text (doc_line doc j))) eqn:Et.
      * exists j. split; [split; [lia | split; [exact Hf | intros _; exact Et]] |].
        assert (E : from (doc_line doc (S (j - 1))) = to (doc_line doc (j - 1)) + 1)
          by (apply doc_line_adjacent; lia).
        replace (S (j - 1)) with j in E by lia. rewrite E. f_equal. lia.
      * apply (IH i (S j)); [exact Hi | lia | | lia].
        intros m Hm. destruct (Nat.eq_dec m j) as [-> | Hne]; [exact Et | apply Hf; lia].
    + apply Nat.leb_gt in Ej. assert (j = length doc + 1) as -> by lia.
      exists (length doc + 1). split; [split; [lia | split; [exact Hf | lia]] |].
      replace (length doc + 1 - 1) with (length doc) by lia.
      rewrite doc_line_last_to; [reflexivity |]. destruct doc; simpl in *; [lia | congruence].
Qed.

(** The decorations [buildDecorations] pushes for a toggle line [k]: the
    widget over its first three characters, and, when its position is
    folded, the block from the start of line [k + 1] to the end of the line
    before the next toggle line [j] (or the last line), if not empty. *)
Definition flat_deco (folded : list nat) (k a b : nat) (d : V0.Decoration) : Prop :=
  let line := doc_line doc k in
  (a = from line /\ b = from line + 3 /\
   d = V0.ReplaceWidget (V0.ToggleWidget (existsb (Nat.eqb (from line)) folded))) \/
  (existsb (Nat.eqb (from line)) folded = true /\ d = V0.ReplaceBlock /\
   exists j, next_toggle k j /\ a = to line + 1 /\ b = to (doc_line doc (j - 1)) /\ a < b).

Lemma build_loop_in : forall folded fuel i a b d, 1 <= i -> length doc + 1 - i <= fuel ->
  In (a, b, d) (V0.build_loop doc folded fuel i) <->
  exists k, i <= k <= length doc /\ V0.TOGGLE_SYNTAX_match (text (doc_line doc k)) = true /\
    flat_deco folded k a b d.
Proof.
  intros folded fuel. induction fuel as [| fuel IH]; intros i a b d Hi Hfuel.
  - simpl. split; [contradiction | intros (k & Hk & _); lia].
  - cbn [V0.build_loop]. destruct (i <=? length doc) eqn:Ei.
    2:{ apply Nat.leb_gt in Ei. simpl. split; [contradiction | intros (k & Hk & _); lia]. }
    apply Nat.leb_le in Ei.
    destruct (V0.TOGGLE_SYNTAX_match (text (doc_line doc i))) eqn:Et.
    2:{ rewrite IH by lia. split.
        - intros (k & Hk & R). exists k. split; [lia | exact R].
        - intros (k & Hk & Tk & R). exists k. split; [| exact (conj Tk R)].
          destruct (Nat.eq_dec k i) as [-> | Hne]; [congruence | lia]. }
    set (line := doc_line doc i) in *.
    destruct (existsb (Nat.eqb (from line)) folded) eqn:Em.
    2:{ simpl In. rewrite IH by lia. split.
        - intros [Eq | (k & Hk & R)].
          + injection Eq as Ha Hb Hd. exists i. split; [lia | split; [exact Et |]].
            left. fold line. rewrite Em. split; [congruence | split; congruence].
          + exists k. split; [lia | exact R].
        - intros (k & Hk & Tk & R). destruct (Nat.eq_dec k i) as [-> | Hne].
          + left. destruct R as [(-> & -> & ->) | (Hm & _)]; [fold line; rewrite Em; reflexivity |].
            fold line in Hm. congruence.
          + right. exists k. split; [lia | exact (conj Tk R)]. }
    pose proof (doc_line_text doc i ltac:(lia)) as (_ & Hw).
    destruct (doc_length doc <? to line + 1) eqn:El.
    + apply Nat.ltb_lt in El. simpl In. rewrite IH by lia. split.
      * intros [Eq | (k & Hk & R)].
        -- injection Eq as Ha Hb Hd. exists i. split; [lia | split; [exact Et |]].
           left. fold line. rewrite Em. split; [congruence | split; congruence].
        -- exists k. split; [lia | exact R].
      * intros (k & Hk & Tk & R). destruct (Nat.eq_dec k i) as [-> | Hne].
        -- left. destruct R as [(-> & -> & ->) | (_ & _ & j & (Hj & _) & Ha & Hb & Hab)].
           ++ fold line. rewrite Em. reflexivity.
           ++ exfalso. pose proof (doc_line_to_le doc (j - 1) ltac:(lia)). fold line in Ha. lia.
        -- right. exists k. split; [lia | exact (conj Tk R)].
    + apply Nat.ltb_ge in El.
      destruct (scan_next_spec (length doc) i (S i)) as (j' & Hnt & Hsc);
        [lia | lia | intros m Hm; lia | lia |].
      rewrite Hsc. pose proof Hnt as (Hj' & Hbefore & _).
      simpl In. rewrite in_app_iff, IH by lia. split.
      * intros [Eq | [Hblk | (k & Hk & R)]].
        -- injection Eq as Ha Hb Hd. exists i. split; [lia | split; [exact Et |]].
           left. fold line. rewrite Em. split; [congruence | split; congruence].
        -- destruct (to line + 1 <? to (doc_line doc (j' - 1))) eqn:Ec; [| contradiction].
           apply Nat.ltb_lt in Ec. destruct Hblk as [Eq | []].
           injection Eq as Ha Hb Hd. exists i. split; [lia | split; [exact Et |]].
           right. fold line. split; [exact Em | split; [congruence |]].
           exists j'. split; [exact Hnt | split; [congruence | split; [congruence | lia]]].
        -- exists k. split; [lia | exact R].
      * intros (k & Hk & Tk & R). destruct (Nat.eq_dec k i) as [-> | Hne].
        -- destruct R as [(-> & -> & ->) | (_ & -> & j & Hj & -> & -> & Hab)].
           ++ left. fold line. rewrite Em. reflexivity.
           ++ right. left. rewrite (next_toggle_unique i j j' Hj Hnt) in Hab |- *.
              fold line in Hab |- *. apply Nat.ltb_lt in Hab. rewrite Hab. left. reflexivity.
        -- right. right. exists k. split; [| exact (conj Tk R)].
           destruct (le_lt_dec j' k) as [Hle | Hlt]; [lia |].
           rewrite Hbefore in Tk by lia. discriminate.
Qed.

End FlatFold.

(** In the first version of the plugin, [buildDecorations] gives every
    line that matches [TOGGLE_SYNTAX] its widget, over the line's first
    three characters and closed exactly when the line's start is in the
    fold state: skipping to the next toggle line after a fold never skips a
    toggle.  A folded toggle line also gets a block hiding the text from
    the start of the next line to the end of the line before the next
    toggle line (or to the end of the document), when that text is not
    empty.  Nothing else is added. *)
Theorem v0_flat_fold_decorations : forall doc folded a b d,
  In (a, b, d) (V0.buildDecorations doc folded) <->
  exists k, 1 <= k <= length doc /\
    V0.TOGGLE_SYNTAX_match (text (doc_line doc k)) = true /\
    ((a = from (doc_line doc k) /\ b = a + 3 /\
      d = V0.ReplaceWidget (V0.ToggleWidget (existsb (Nat.eqb a) folded))) \/
     (existsb (Nat.eqb (from (doc_line doc k))) folded = true /\ d = V0.ReplaceBlock /\
      exists j, next_toggle doc k j /\
        a = to (doc_line doc k) + 1 /\ b = to (doc_line doc (j - 1)) /\ a < b)).
Proof.
  intros doc folded a b d. unfold V0.buildDecorations.
  rewrite build_loop_in by lia. unfold flat_deco.
  split; intros (k & Hk & Tk & R); exists k; (split; [exact Hk | split; [exact Tk |]]);
    (destruct R as [(Ha & Hb & Hd) | R]; [left; subst a; auto | right; exact R]).
Qed.

(** ** First version of the editor extension: untrimmed markers *)

(** A line reduced to the marker its untrimmed text starts with. *)
Definition marker_of (t : string) : string :=
  if startsWith t START_TAG then START_TAG
  else if startsWith t END_TAG then END_TAG else "".

Lemma marker_of_tags : forall t,
  startsWith (marker_of t) START_TAG = startsWith t START_TAG /\
  startsWith (marker_of t) END_TAG = startsWith t END_TAG /\
  marker_unindented (marker_of t).
Proof.
  intros t. unfold marker_of.
  destruct (startsWith t START_TAG) eqn:Hs.
  - rewrite (start_not_end t Hs). repeat split; reflexivity.
  - destruct (startsWith t END_TAG); repeat split; reflexivity.
Qed.

Lemma scan_lines_marker_of : forall ts i st rs,
  scan_lines i (map marker_of ts) st rs = scan_lines i ts st rs.
Proof.
  induction ts as [| t ts IH]; intros i st rs; [reflexivity |].
  destruct (marker_of_tags t) as (Hs & He & _).
  cbn [map scan_lines]. rewrite Hs, He.
  destruct (startsWith t START_TAG); [apply IH |].
  destruct (startsWith t END_TAG); [destruct st |]; apply IH.
Qed.

Lemma fme_loop_marker_of : forall ts i k,
  fme_loop i (map marker_of ts) k = V1.fme_loop i ts k.
Proof.
  induction ts as [| t ts IH]; intros i k; [reflexivity |].
  destruct (marker_of_tags t) as (Hs & He & [HS HE]).
  cbn [map fme_loop V1.fme_loop]. rewrite HS, HE, Hs, He.
  destruct (startsWith t START_TAG); [apply IH |].
  destruct (startsWith t END_TAG); [| apply IH].
  destruct (Nat.eqb (k - 1) 0); [reflexivity | apply IH].
Qed.

(** In the first version of the editor extension, the fold service folds
    exactly the blocks the indentation scanner accepts, on every document:
    it offers a fold on line [n] if and only if the scanner pairs [n] with
    a close line [e], and the fold runs from the end of line [n] to the end
    of line [e]. *)
Theorem v1_fold_service_matches_scan : forall doc n fs fe, 1 <= n ->
  V1.notionFoldService doc n = Some (fs, fe) <->
  exists e, In (mkRange n e) (scan doc) /\
    fs = to (doc_line doc n) /\ fe = to (doc_line doc e).
Proof.
  intros doc n fs fe Hn1.
  assert (Hagree : forall e, In (mkRange n e) (scan doc) <->
    1 <= n <= length doc /\ startsWith (nth (n - 1) doc "") START_TAG = true /\
    V1.findMatchingEndLine doc n = Some e).
  { intros e. unfold scan. rewrite <- scan_lines_marker_of. fold (scan (map marker_of doc)).
    rewrite scan_agrees_fme.
    2:{ apply Forall_forall. intros t Ht. apply in_map_iff in Ht as (u & <- & _).
        apply marker_of_tags. }
    rewrite length_map. unfold findMatchingEndLine, V1.findMatchingEndLine.
    rewrite skipn_map, fme_loop_marker_of.
    change "" with (marker_of "") at 1. rewrite map_nth, (proj1 (marker_of_tags _)).
    reflexivity. }
  unfold V1.notionFoldService.
  destruct (le_lt_dec n (length doc)) as [Hn2 | Hn2].
  - destruct (doc_line_text doc n (conj Hn1 Hn2)) as (Ht & _).
    assert (Hnum : number (doc_line doc n) = n).
    { unfold doc_line, doc_lines. destruct (mk_lines_nth doc 1 0 (n - 1)) as (H & _); [lia |]. lia. }
    rewrite Ht, Hnum. split.
    + destruct (startsWith (nth (n - 1) doc "") START_TAG) eqn:Hs; [| discriminate].
      destruct (V1.findMatchingEndLine doc n) as [e |] eqn:Hf; [| discriminate].
      intros Eq. injection Eq as <- <-. exists e.
      split; [apply Hagree; auto | split; reflexivity].
    + intros (e & Hin & -> & ->). apply Hagree in Hin as (_ & Hs & Hf).
      rewrite Hs, Hf. reflexivity.
  - split; [| intros (e & Hin & _); apply Hagree in Hin; lia].
    unfold doc_line, doc_lines. rewrite nth_overflow by (rewrite mk_lines_length; lia).
    discriminate.
Qed.

Lemma v1_fold_service_matches_scan_witness :
  V1.notionFoldService ["|> A"; "  |> B"; "<|"; "<|"] 1 = Some (4, 14) /\
  (V1.notionFoldService ["|> A"; "  |> B"; "<|"; "<|"] 1 = Some (4, 14) <->
   exists e, In (mkRange 1 e) (scan ["|> A"; "  |> B"; "<|"; "<|"]) /\
     4 = to (doc_line ["|> A"; "  |> B"; "<|"; "<|"] 1) /\
     14 = to (doc_line ["|> A"; "  |> B"; "<|"; "<|"] e)).
Proof.
  split; [reflexivity |]. apply v1_fold_service_matches_scan. lia.
Defined.

Lemma existsb_eqb_In : forall p l, existsb (Nat.eqb p) l = true <-> In p l.
Proof.
  intros p l. rewrite existsb_exists. split.
  - intros (x & Hx & E). apply Nat.eqb_eq in E. subst x. exact Hx.
  - intros H. exists p. split; [exact H | apply Nat.eqb_refl].
Qed.

(** Clicking the triangle of a toggle line in the first version folds the
    line when it was open and opens it when it was folded: the click's
    transaction (no change to the text, one toggle effect) flips the line's
    position in the fold state, leaves every other position as it was,
    and the rebuilt decorations show the line's widget in the new state. *)
Theorem v0_click_flips_fold : forall doc folded p isFolded,
  In (p, p + 3, V0.ReplaceWidget (V0.ToggleWidget isFolded)) (V0.buildDecorations doc folded) ->
  let folded' := foldState_update (fun x => x)
                   [V0.ToggleWidget_onclick (V0.ToggleWidget isFolded) p] folded in
  (In p folded' <-> ~ In p folded) /\
  (forall q, q <> p -> (In q folded' <-> In q folded)) /\
  In (p, p + 3, V0.ReplaceWidget (V0.ToggleWidget (negb isFolded)))
     (V0.buildDecorations doc folded').
Proof.
  intros doc folded p isFolded H folded'.
  unfold V0.buildDecorations in *. rewrite build_loop_in in H by lia.
  destruct H as (k & Hk & Tk & [(Hp & _ & Hw) | (_ & Hd & _)]); [| discriminate Hd].
  injection Hw as Hf.
  assert (Hmem : forall q, In q folded' <-> if q =? p then negb isFolded = true else In q folded).
  { intros q. unfold folded', foldState_update. rewrite fold_apply_effects.
    cbn [rev app find V0.ToggleWidget_onclick pos on].
    destruct (p =? q) eqn:Epq; rewrite Nat.eqb_sym, Epq; [reflexivity |].
    unfold remap. destruct (remap_fold (fun x => x) folded [] (NoDup_nil _)) as (Hin & _).
    rewrite Hin. split; [intros [[] | (y & Hy & ->)]; exact Hy | intros Hq; right; eauto]. }
  assert (Hold : In p folded <-> isFolded = true) by (rewrite Hf, Hp; symmetry; apply existsb_eqb_In).
  assert (Hnew : In p folded' <-> isFolded = false).
  { rewrite Hmem, Nat.eqb_refl. destruct isFolded; split; auto. }
  split; [| split].
  - rewrite Hnew, Hold. destruct isFolded; split; auto; intros H; [discriminate | exfalso; apply H; reflexivity].
  - intros q Hq. rewrite Hmem. apply Nat.eqb_neq in Hq. rewrite Hq. reflexivity.
  - rewrite build_loop_in by lia. exists k. split; [exact Hk | split; [exact Tk |]].
    left. rewrite <- Hp. split; [reflexivity | split; [reflexivity |]].
    do 2 f_equal. destruct (existsb (Nat.eqb p) folded') eqn:E.
    + apply existsb_eqb_In, Hnew in E. rewrite E. reflexivity.
    + destruct isFolded; [reflexivity |].
      assert (Hin : In p folded') by (apply Hnew; reflexivity).
      apply existsb_eqb_In in Hin. congruence.
Qed.

Lemma v0_click_flips_fold_witness :
  In (0, 0 + 3, V0.ReplaceWidget (V0.ToggleWidget false))
     (V0.buildDecorations ["|> a"; "x"; "|> b"] [6]) /\
  let folded' := foldState_update (fun x => x)
                   [V0.ToggleWidget_onclick (V0.ToggleWidget false) 0] [6] in
  (In 0 folded' <-> ~ In 0 [6]) /\
  (forall q, q <> 0 -> (In q folded' <-> In q [6])) /\
  In (0, 0 + 3, V0.ReplaceWidget (V0.ToggleWidget (negb false)))
     (V0.buildDecorations ["|> a"; "x"; "|> b"] folded').
Proof.
  split; [vm_compute; left; reflexivity |].
  apply v0_click_flips_fold. vm_compute. left. reflexivity.
Defined.
